(** * text-to-stl: the binary STL cube writer of [test2.py]

    A shallow embedding of the script and the properties its specification
    states about it.

    The script is Python 2 (a [str] literal is written to a file opened in
    binary mode): a [str] is a byte string, [/] between an int and a float is
    float division, and a float is an IEEE 754 binary64 number.

    Floats are the Standard Library's [spec_float] at precision 53 and
    maximal exponent 1024, rounded to nearest even.  [x ** 2] and [x ** 0.5]
    go to the C library's [pow] in CPython; they are taken here as correctly
    rounded (the square and the square root of IEEE 754).  The bits of a NaN
    are not tracked by [spec_float]: a NaN is packed as the quiet NaN
    [0x7fc00000]. *)

From Stdlib Require Import String Ascii ZArith List Bool Lia QArith Qpower.
From Stdlib Require Import Floats.SpecFloat.
From Stdlib Require Strings.Byte.
Import ListNotations.

Local Open Scope Z_scope.

(** ** Exceptions and the two monads of the script *)

Inductive exn : Type :=
| AssertionError
| IndexError
| ZeroDivisionError
| OverflowError
| ValueError
| StructError.

Inductive result (A : Type) : Type :=
| Ok (a : A)
| Raise (e : exn).
Arguments Ok {A} a.
Arguments Raise {A} e.

Definition bind {A B} (c : result A) (k : A -> result B) : result B :=
  match c with
  | Ok a => k a
  | Raise e => Raise e
  end.

Declare Scope py_scope.
Delimit Scope py_scope with py.
Notation "'let*' x ':=' c 'in' k" := (bind c (fun x => k))
  (at level 10, x pattern, c at level 100, k at level 200) : py_scope.
Notation "k =<< c" := (bind c k) (at level 61, right associativity) : py_scope.
Local Open Scope py_scope.

(** [assert cond] *)
Definition py_assert (b : bool) : result unit :=
  if b then Ok tt else Raise AssertionError.

(** A list comprehension [[ f x for x in l ]]: the elements are evaluated
    from left to right and the first exception ends the evaluation. *)
Fixpoint comprehension {A B} (f : A -> result B) (l : list A) : result (list B) :=
  match l with
  | [] => Ok []
  | x :: l' =>
      let* y := f x in
      let* ys := comprehension f l' in
      Ok (y :: ys)
  end.

(** ** Floats *)

Definition float : Type := spec_float.

Definition prec : Z := 53.
Definition emax : Z := 1024.

Definition float_add : float -> float -> float := SFadd prec emax.
Definition float_sub : float -> float -> float := SFsub prec emax.
Definition float_mul : float -> float -> float := SFmul prec emax.

(** The float of an integer literal or of an int operand ([5] in [ax*5],
    [1] in [1 / x], [0] at the start of [sum]). *)
Definition float_of_int (z : Z) : float := binary_normalize prec emax z 0 false.

Definition is_zero (x : float) : bool :=
  match x with S754_zero _ => true | _ => false end.

Definition is_finite (x : float) : bool :=
  match x with S754_zero _ | S754_finite _ _ _ => true | _ => false end.

Definition is_infinite (x : float) : bool :=
  match x with S754_infinity _ => true | _ => false end.

(** [a / b] on floats: CPython tests the divisor against zero first. *)
Definition float_div (a b : float) : result float :=
  if is_zero b then Raise ZeroDivisionError else Ok (SFdiv prec emax a b).

(** [x ** 2]: an overflow of [pow] on a finite base is an [OverflowError]. *)
Definition float_pow_2 (x : float) : result float :=
  let y := float_mul x x in
  if is_finite x && is_infinite y then Raise OverflowError else Ok y.

(** [x ** 0.5]: a negative finite base raised to a fractional power is a
    [ValueError] in Python 2; zeros and infinities lose their sign. *)
Definition float_pow_half (x : float) : result float :=
  match x with
  | S754_nan => Ok S754_nan
  | S754_infinity _ => Ok (S754_infinity false)
  | S754_zero _ => Ok (S754_zero false)
  | S754_finite true _ _ => Raise ValueError
  | S754_finite false _ _ => Ok (SFsqrt prec emax x)
  end.

(** [sum(l)] starts from the int [0] and adds from left to right, each
    addition rounded (Python 2 has no compensated summation). *)
Definition py_sum (l : list float) : float :=
  fold_left float_add l (float_of_int 0).

(** ** Sequences (tuples and lists) of floats *)

Definition vec : Type := list float.

Definition getitem {A} (a : list A) (i : nat) : result A :=
  match nth_error a i with
  | Some x => Ok x
  | None => Raise IndexError
  end.

Definition range (n : nat) : list nat := seq 0 n.

(** ** Vector math, lines 6-34 *)

Definition vec_sub (a b : vec) : result vec :=
  let* _ := py_assert (Nat.eqb (length a) (length b)) in
  comprehension
    (fun i => let* x := getitem a i in
              let* y := getitem b i in
              Ok (float_sub x y))
    (range (length a)).

Definition vec_add (a b : vec) : result vec :=
  let* _ := py_assert (Nat.eqb (length a) (length b)) in
  comprehension
    (fun i => let* x := getitem a i in
              let* y := getitem b i in
              Ok (float_add x y))
    (range (length a)).

Definition vec_scale (a : vec) (s : float) : result vec :=
  comprehension
    (fun i => let* x := getitem a i in Ok (float_mul x s))
    (range (length a)).

(** [u[j]*v[k] - u[k]*v[j]] *)
Definition cross_term (u v : vec) (j k : nat) : result float :=
  let* uj := getitem u j in
  let* vk := getitem v k in
  let* uk := getitem u k in
  let* vj := getitem v j in
  Ok (float_sub (float_mul uj vk) (float_mul uk vj)).

(** The body of the loop of [vec_cross]: one [s.append]. *)
Definition vec_cross_step (u v : vec) (s : vec) (i : nat) : result vec :=
  match i with
  | 0%nat => let* x := cross_term u v 1 2 in Ok (s ++ [x])
  | 1%nat => let* x := cross_term u v 2 0 in Ok (s ++ [x])
  | _ => let* x := cross_term u v 0 1 in Ok (s ++ [x])
  end.

Fixpoint for_acc {A S} (body : S -> A -> result S) (l : list A) (s : S) : result S :=
  match l with
  | [] => Ok s
  | i :: l' => let* s' := body s i in for_acc body l' s'
  end.

Definition vec_cross (u v : vec) : result vec :=
  let* _ := py_assert (Nat.eqb (length u) (length v)) in
  let dim := length u in
  for_acc (vec_cross_step u v) (range dim) [].

Definition vec_len (a : vec) : result float :=
  let* squares := comprehension float_pow_2 a in
  float_pow_half (py_sum squares).

(** ** The mesh, lines 38-92 *)

Definition vec3 : Type := (float * float * float)%type.
Definition triangle : Type := (vec3 * vec3 * vec3)%type.

(** A 3-tuple as a sequence. *)
Definition items (v : vec3) : vec := let '(x, y, z) := v in [x; y; z].

Definition tri0 (t : triangle) : vec3 := let '(a, _, _) := t in a.
Definition tri1 (t : triangle) : vec3 := let '(_, b, _) := t in b.
Definition tri2 (t : triangle) : vec3 := let '(_, _, c) := t in c.

Definition f1 : float := float_of_int 1.
Definition m1 : float := float_of_int (-1).

Definition unit_triangles : list triangle :=
  [ ((m1, m1, m1), (m1, m1, f1), (m1, f1, f1));
    ((f1, f1, m1), (m1, m1, m1), (m1, f1, m1));
    ((f1, m1, f1), (m1, m1, m1), (f1, m1, m1));
    ((f1, f1, m1), (f1, m1, m1), (m1, m1, m1));
    ((m1, m1, m1), (m1, f1, f1), (m1, f1, m1));
    ((f1, m1, f1), (m1, m1, f1), (m1, m1, m1));
    ((m1, f1, f1), (m1, m1, f1), (f1, m1, f1));
    ((f1, f1, f1), (f1, m1, m1), (f1, f1, m1));
    ((f1, m1, m1), (f1, f1, f1), (f1, m1, f1));
    ((f1, f1, f1), (f1, f1, m1), (m1, f1, m1));
    ((f1, f1, f1), (m1, f1, m1), (m1, f1, f1));
    ((f1, f1, f1), (m1, f1, f1), (f1, m1, f1)) ].

Definition times5 (x : float) : float := float_mul x (float_of_int 5).

Definition scale5 (t : triangle) : triangle :=
  let '((ax, ay, az), (bx, by_, bz), (cx, cy, cz)) := t in
  ((times5 ax, times5 ay, times5 az),
   (times5 bx, times5 by_, times5 bz),
   (times5 cx, times5 cy, times5 cz)).

Definition triangles : list triangle := map scale5 unit_triangles.

(** ** Bytes and [struct] *)

Definition byte : Type := Byte.byte.

Definition byte_of_Z (z : Z) : byte :=
  match Byte.of_N (Z.to_N (z mod 256)) with
  | Some b => b
  | None => Byte.x00
  end.

Definition Z_of_byte (b : byte) : Z := Z.of_N (Byte.to_N b).

(** The [n] low bytes of [z], least significant first. *)
Fixpoint le_bytes (n : nat) (z : Z) : list byte :=
  match n with
  | O => []
  | S n' => byte_of_Z z :: le_bytes n' (z / 256)
  end.

Fixpoint le_value (l : list byte) : Z :=
  match l with
  | [] => 0
  | b :: l' => Z_of_byte b + 256 * le_value l'
  end.

(** [struct.pack('<I', z)] and [struct.pack('<H', z)] *)
Definition pack_I (z : Z) : result (list byte) :=
  if (0 <=? z) && (z <? 2 ^ 32) then Ok (le_bytes 4 z) else Raise StructError.

Definition pack_H (z : Z) : result (list byte) :=
  if (0 <=? z) && (z <? 2 ^ 16) then Ok (le_bytes 2 z) else Raise StructError.

(** The C cast [(float)x]: round to nearest even at precision 24. *)
Definition to_single (x : float) : float :=
  match x with
  | S754_finite s m e => binary_round 24 128 s m e
  | _ => x
  end.

Definition sign_bit (s : bool) : Z := if s then 2 ^ 31 else 0.

(** The IEEE 754 binary32 word of a single. *)
Definition bits_of_single (x : float) : Z :=
  match x with
  | S754_zero s => sign_bit s
  | S754_infinity s => sign_bit s + 255 * 2 ^ 23
  | S754_nan => 255 * 2 ^ 23 + 2 ^ 22
  | S754_finite s m e =>
      if Zpos (digits2_pos m) =? 24
      then sign_bit s + (e + 150) * 2 ^ 23 + (Zpos m - 2 ^ 23)
      else sign_bit s + Zpos m
  end.

(** One [f] of [struct.pack('<f...')]: a finite double that rounds to an
    infinite single is an [OverflowError]. *)
Definition pack_f (x : float) : result (list byte) :=
  let y := to_single x in
  if is_finite x && is_infinite y then Raise OverflowError
  else Ok (le_bytes 4 (bits_of_single y)).

(** [struct.pack('<fff', a, b, c)] *)
Definition pack_fff (a b c : float) : result (list byte) :=
  let* ba := pack_f a in
  let* bb := pack_f b in
  let* bc := pack_f c in
  Ok (ba ++ bb ++ bc).

(** The single of a binary32 word, as the double it widens to. *)
Definition single_of_bits (w : Z) : float :=
  let s := Z.odd (w / 2 ^ 31) in
  let e := (w / 2 ^ 23) mod 256 in
  let f := w mod 2 ^ 23 in
  if e =? 255 then (if f =? 0 then S754_infinity s else S754_nan)
  else if e =? 0 then binary_normalize prec emax (cond_Zopp s f) (-149) s
  else binary_normalize prec emax (cond_Zopp s (f + 2 ^ 23)) (e - 150) s.

(** [struct.unpack]: the data must have the size of the format. *)
Definition unpack_I (data : list byte) : result Z :=
  if Nat.eqb (length data) 4 then Ok (le_value data) else Raise StructError.

Definition unpack_H (data : list byte) : result Z :=
  if Nat.eqb (length data) 2 then Ok (le_value data) else Raise StructError.

Definition unpack_f (data : list byte) : float := single_of_bits (le_value data).

Definition unpack_fff (data : list byte) : result vec3 :=
  if Nat.eqb (length data) 12
  then Ok (unpack_f (firstn 4 data),
           unpack_f (firstn 4 (skipn 4 data)),
           unpack_f (firstn 4 (skipn 8 data)))
  else Raise StructError.

(** ** Files

    A computation on a file object threads the state of the file; an
    exception leaves the file as it is at that point. *)

Definition IO (S A : Type) : Type := S -> S * result A.

Definition ret {S A} (a : A) : IO S A := fun st => (st, Ok a).

Definition lift {S A} (r : result A) : IO S A := fun st => (st, r).

Definition bindIO {S A B} (c : IO S A) (k : A -> IO S B) : IO S B :=
  fun st =>
    match c st with
    | (st', Ok a) => k a st'
    | (st', Raise e) => (st', Raise e)
    end.

Notation "x <- c ;; k" := (bindIO c (fun x => k))
  (at level 61, c at next level, right associativity) : py_scope.
Notation "c ;; k" := (bindIO c (fun _ => k))
  (at level 61, right associativity) : py_scope.

(** [for x in l: body] *)
Fixpoint for_each {S A} (body : A -> IO S unit) (l : list A) : IO S unit :=
  match l with
  | [] => ret tt
  | x :: l' => body x ;; for_each body l'
  end.

(** A file opened with ['wb']: the bytes written so far. *)
Definition wfile : Type := list byte.

Definition fp_write (data : list byte) : IO wfile unit :=
  fun st => (st ++ data, Ok tt).

(** A file opened with ['rb']: the bytes not read yet and the position. *)
Record rfile : Type := { unread : list byte; tell : nat }.

Definition fp_read (n : nat) : IO rfile (list byte) :=
  fun st =>
    let data := firstn n (unread st) in
    ({| unread := skipn n (unread st); tell := (tell st + length data)%nat |},
     Ok data).

Definition fp_tell : IO rfile nat := fun st => (st, Ok (tell st)).

(** ** The writer, lines 4 and 114-127 *)

Definition header : list byte :=
  list_byte_of_string "STLB ATF 2.0.0.9000 COLOR="
  ++ [Byte.xa0; Byte.xa0; Byte.xa0; Byte.xff]
  ++ list_byte_of_string "                                                  ".

(** Line 121: [vec_scale(n, 1 / vec_len(n))], the normalization of the
    specification. *)
Definition normalize (n : vec) : result vec :=
  let* l := vec_len n in
  let* r := float_div (float_of_int 1) l in
  vec_scale n r.

(** [struct.pack('<fff', v[0], v[1], v[2])] on a sequence and on a 3-tuple *)
Definition pack_vec (v : vec) : result (list byte) :=
  let* x := getitem v 0 in
  let* y := getitem v 1 in
  let* z := getitem v 2 in
  pack_fff x y z.

Definition pack_vec3 (v : vec3) : result (list byte) :=
  let '(x, y, z) := v in pack_fff x y z.

(** The body of the loop, lines 118-127. *)
Definition write_triangle (tri : triangle) : IO wfile unit :=
  n1 <- lift (vec_sub (items (tri0 tri)) (items (tri1 tri))) ;;
  n2 <- lift (vec_sub (items (tri1 tri)) (items (tri2 tri))) ;;
  n <- lift (vec_cross n1 n2) ;;
  n <- lift (normalize n) ;;
  d <- lift (pack_vec n) ;; fp_write d ;;
  d <- lift (pack_vec3 (tri0 tri)) ;; fp_write d ;;
  d <- lift (pack_vec3 (tri1 tri)) ;; fp_write d ;;
  d <- lift (pack_vec3 (tri2 tri)) ;; fp_write d ;;
  d <- lift (pack_H 0) ;; fp_write d.

Definition write_stl (tris : list triangle) : IO wfile unit :=
  fp_write header ;;
  d <- lift (pack_I (Z.of_nat (length tris))) ;; fp_write d ;;
  for_each write_triangle tris.

(** The file system, as far as the script touches it: [open(path, 'wb')]
    creates or truncates the file, and the [with] block closes it on every
    exit, so that the file holds what was written, also after an exception. *)
Definition filesystem : Type := string -> option (list byte).

Definition fs_store (fs : filesystem) (path : string) (data : list byte) : filesystem :=
  fun p => if String.eqb p path then Some data else fs p.

(** The whole script, in an environment it never consults.  The reader under
    [if False:] is not run. *)
Definition main (argv : list string) (environ : string -> option string)
    (fs : filesystem) : filesystem * result unit :=
  let '(written, r) := write_stl triangles [] in
  (fs_store fs "test.stl" written, r).

(** ** The reader, lines 130-141 (dead code in the script)

    The script prints what it parses; here the parsed values are returned. *)

Record record : Type :=
  { rec_n : vec3; rec_a : vec3; rec_b : vec3; rec_c : vec3; rec_attributes : Z }.

Definition read_record : IO rfile record :=
  d <- fp_read (3 * 4) ;; n <- lift (unpack_fff d) ;;
  d <- fp_read (3 * 4) ;; a <- lift (unpack_fff d) ;;
  d <- fp_read (3 * 4) ;; b <- lift (unpack_fff d) ;;
  d <- fp_read (3 * 4) ;; c <- lift (unpack_fff d) ;;
  d <- fp_read 2 ;; attributes <- lift (unpack_H d) ;;
  ret {| rec_n := n; rec_a := a; rec_b := b; rec_c := c;
         rec_attributes := attributes |}.

(** [for i in range(count)] *)
Fixpoint read_records (count : nat) : IO rfile (list record) :=
  match count with
  | O => ret []
  | S count' =>
      r <- read_record ;;
      rs <- read_records count' ;;
      ret (r :: rs)
  end.

Record parsed : Type :=
  { p_header : list byte; p_count : Z; p_records : list record; p_tell : nat }.

Definition read_stl : IO rfile parsed :=
  hd <- fp_read 80 ;;
  d <- fp_read 4 ;; count <- lift (unpack_I d) ;;
  rs <- read_records (Z.to_nat count) ;;
  xx <- fp_tell ;;
  ret {| p_header := hd; p_count := count; p_records := rs; p_tell := xx |}.

Definition open_rb (data : list byte) : rfile := {| unread := data; tell := 0 |}.

(** ** The layout and the normal of the specification

    Section 4.4: a record is 3 floats of 4 bytes for the normal, 3 for each
    of the vertices 0, 1 and 2, and an attribute field of 2 bytes with the
    value 0, all little-endian. *)

Definition field_f (x : float) : list byte :=
  le_bytes 4 (bits_of_single (to_single x)).

Definition field_vec3 (v : vec3) : list byte :=
  let '(x, y, z) := v in field_f x ++ field_f y ++ field_f z.

Definition stl_record (n : vec3) (tri : triangle) : list byte :=
  field_vec3 n ++ field_vec3 (tri0 tri) ++ field_vec3 (tri1 tri)
  ++ field_vec3 (tri2 tri) ++ le_bytes 2 0.

(** Section 4.3: edge1 = v0 - v1, edge2 = v1 - v2,
    normal = normalize(cross(edge1, edge2)). *)
Definition normal_of (tri : triangle) : result vec :=
  let* edge1 := vec_sub (items (tri0 tri)) (items (tri1 tri)) in
  let* edge2 := vec_sub (items (tri1 tri)) (items (tri2 tri)) in
  normalize =<< vec_cross edge1 edge2.

(** [emitted tri rec]: [rec] is the record of [tri], with the normal of
    section 4.3 in its first field. *)
Definition emitted (tri : triangle) (rec : list byte) : Prop :=
  exists nx ny nz,
    normal_of tri = Ok [nx; ny; nz]
    /\ pack_vec [nx; ny; nz] = Ok (field_vec3 (nx, ny, nz))
    /\ rec = stl_record (nx, ny, nz) tri.

(** A computation on a written file only appends to it. *)
Definition appends {A} (c : IO wfile A) : Prop :=
  forall st, exists d, fst (c st) = st ++ d.

(** Section 4.1: the cyclic index triples of the cross product. *)
Definition cyclic : list (nat * nat * nat) :=
  [(0, 1, 2); (1, 2, 0); (2, 0, 1)]%nat.

(** [a[i]] where the index is known to be in range. *)
Definition item (a : vec) (i : nat) : float := nth i a S754_nan.

(** A triangle without area: its three vertices are one point. *)
Definition point_triangle : triangle :=
  ((f1, f1, f1), (f1, f1, f1), (f1, f1, f1)).

(** ** Exact values

    The real number a finite float stands for, as a rational, and the
    geometry of a triangle on these exact values. *)

Definition Q_of_float (x : float) : option Q :=
  match x with
  | S754_zero _ => Some 0%Q
  | S754_finite s m e => Some (inject_Z (cond_Zopp s (Zpos m)) * 2 ^ e)%Q
  | S754_infinity _ | S754_nan => None
  end.

Definition qvec : Type := (Q * Q * Q)%type.

Definition exact3 (v : vec3) : option qvec :=
  let '(x, y, z) := v in
  match Q_of_float x, Q_of_float y, Q_of_float z with
  | Some qx, Some qy, Some qz => Some (qx, qy, qz)
  | _, _, _ => None
  end.

Definition qsub (a b : qvec) : qvec :=
  let '(a0, a1, a2) := a in
  let '(b0, b1, b2) := b in
  (a0 - b0, a1 - b1, a2 - b2)%Q.

Definition qcross (u v : qvec) : qvec :=
  let '(u0, u1, u2) := u in
  let '(v0, v1, v2) := v in
  (u1 * v2 - u2 * v1, u2 * v0 - u0 * v2, u0 * v1 - u1 * v0)%Q.

(** The square of the magnitude. *)
Definition qnorm2 (a : qvec) : Q :=
  let '(a0, a1, a2) := a in (a0 * a0 + a1 * a1 + a2 * a2)%Q.

(** The two edges v0 - v1 and v1 - v2 are non-zero and not parallel. *)
Definition non_degenerate (tri : triangle) : Prop :=
  exists a b c,
    exact3 (tri0 tri) = Some a /\ exact3 (tri1 tri) = Some b
    /\ exact3 (tri2 tri) = Some c
    /\ ~ (qnorm2 (qsub a b) == 0)%Q
    /\ ~ (qnorm2 (qsub b c) == 0)%Q
    /\ ~ (qnorm2 (qcross (qsub a b) (qsub b c)) == 0)%Q.




(** The float m * 2^e. *)
Definition float_of_dyadic (m e : Z) : float := binary_normalize prec emax m e false.


(** ** What the reader finds in a record

    A float that was packed and is unpacked again, and the record parsed
    from the record written for a triangle with the normal [n]. *)

Definition read_back (x : float) : float := unpack_f (field_f x).

Definition read_back3 (v : vec3) : vec3 :=
  let '(x, y, z) := v in (read_back x, read_back y, read_back z).

Definition parsed_record (n : vec3) (tri : triangle) : record :=
  {| rec_n := read_back3 n;
     rec_a := read_back3 (tri0 tri);
     rec_b := read_back3 (tri1 tri);
     rec_c := read_back3 (tri2 tri);
     rec_attributes := 0 |}.

(** A float that is not below zero: a NaN, or a zero, a finite number or an
    infinity with the sign bit clear. *)
Definition sign_clear (x : float) : bool :=
  match x with
  | S754_zero s | S754_infinity s | S754_finite s _ _ => negb s
  | S754_nan => true
  end.

(** A triangle the loop body can write: its normal exists and its twelve
    floats fit the binary32 format. *)
Definition writable (tri : triangle) : Prop :=
  exists n dn d0 d1 d2,
    normal_of tri = Ok n /\ pack_vec n = Ok dn
    /\ pack_vec3 (tri0 tri) = Ok d0 /\ pack_vec3 (tri1 tri) = Ok d1
    /\ pack_vec3 (tri2 tri) = Ok d2.

(** The component-wise combination of two sequences, as far as both go. *)
Definition zip_with (f : float -> float -> float) (a b : vec) : vec :=
  map (fun p => f (fst p) (snd p)) (combine a b).

(** Every component is a zero or a finite number. *)
Definition all_finite (v : vec) : bool := forallb is_finite v.

(** A right-angled triangle with legs of 2^130, beyond the binary32 range. *)
Definition huge_triangle : triangle :=
  ((float_of_dyadic 1 130, float_of_int 0, float_of_int 0),
   (float_of_int 0, float_of_int 0, float_of_int 0),
   (float_of_int 0, float_of_dyadic 1 130, float_of_int 0)).

(** The number of records a stream announces in its count field. *)
Definition announced (data : list byte) : nat :=
  Z.to_nat (le_value (firstn 4 (skipn 80 data))).

(** The C conversion of a single to a double: the same number in the
    binary64 format. *)
Definition widen (y : float) : float :=
  match y with
  | S754_finite s m e => binary_normalize prec emax (cond_Zopp s (Zpos m)) e s
  | _ => y
  end.

(** * Properties *)

(** ** Running a computation step by step *)

Lemma bind_Ok_inv {A B} (c : result A) (k : A -> result B) (b : B) :
  bind c k = Ok b -> exists a, c = Ok a /\ k a = Ok b.
Proof.
  destruct c as [a|e]; simpl; intros H; [eauto | discriminate].
Qed.

Lemma bindIO_Ok_inv {S A B} (c : IO S A) (k : A -> IO S B) st st' (b : B) :
  bindIO c k st = (st', Ok b) ->
  exists a st1, c st = (st1, Ok a) /\ k a st1 = (st', Ok b).
Proof.
  unfold bindIO. destruct (c st) as [st1 [a|e]]; intros H.
  - eauto.
  - inversion H.
Qed.

Lemma lift_Ok_inv {S A} (r : result A) (st st' : S) (a : A) :
  lift r st = (st', Ok a) -> st' = st /\ r = Ok a.
Proof.
  unfold lift. intros H. inversion H. auto.
Qed.

Lemma fp_write_inv (d : list byte) (st st' : wfile) (r : result unit) :
  fp_write d st = (st', r) -> st' = st ++ d /\ r = Ok tt.
Proof.
  unfold fp_write. intros H. inversion H. auto.
Qed.

(** Split a run that ended well into the runs of its steps. *)
Tactic Notation "step_lift" hyp(H) "as" ident(x) ident(Hx) :=
  let st := fresh "st" in
  apply bindIO_Ok_inv in H; destruct H as (x & st & Hx & H);
  apply lift_Ok_inv in Hx; destruct Hx as [-> Hx].

Tactic Notation "step_write" hyp(H) :=
  let u := fresh "u" in
  let st := fresh "st" in
  let Hw := fresh "Hw" in
  apply bindIO_Ok_inv in H; destruct H as (u & st & Hw & H);
  apply fp_write_inv in Hw; destruct Hw as [-> _].

(** ** Little-endian words *)

Lemma Z_of_byte_of_Z (z : Z) : Z_of_byte (byte_of_Z z) = z mod 256.
Proof.
  unfold Z_of_byte, byte_of_Z.
  assert (Hb : 0 <= z mod 256 < 256) by (apply Z.mod_pos_bound; lia).
  pose proof (Byte.to_of_N_option_map (Z.to_N (z mod 256))) as H.
  destruct (Byte.of_N (Z.to_N (z mod 256))) as [b|] eqn:E; simpl in H.
  - destruct (N.leb_spec (Z.to_N (z mod 256)) 255) as [_|_]; [|discriminate].
    injection H as ->. apply Z2N.id. lia.
  - destruct (N.leb_spec (Z.to_N (z mod 256)) 255) as [_|Hlt]; [discriminate|].
    lia.
Qed.

Lemma Z_of_byte_range (b : byte) : 0 <= Z_of_byte b < 256.
Proof.
  unfold Z_of_byte. pose proof (Byte.to_N_bounded b). lia.
Qed.

Lemma byte_of_Z_of_byte (b : byte) : byte_of_Z (Z_of_byte b) = b.
Proof.
  unfold byte_of_Z. rewrite Z.mod_small by apply Z_of_byte_range.
  unfold Z_of_byte. rewrite N2Z.id, Byte.of_to_N. reflexivity.
Qed.

Lemma le_bytes_length (n : nat) (z : Z) : length (le_bytes n z) = n.
Proof.
  revert z. induction n as [|n IH]; intro z; simpl; [reflexivity|].
  now rewrite IH.
Qed.

Lemma le_value_le_bytes (n : nat) (z : Z) :
  le_value (le_bytes n z) = z mod 256 ^ Z.of_nat n.
Proof.
  revert z. induction n as [|n IH]; intro z.
  - simpl. now rewrite Z.mod_1_r.
  - cbn [le_bytes le_value]. rewrite Z_of_byte_of_Z, IH.
    rewrite Nat2Z.inj_succ, Z.pow_succ_r by lia.
    rewrite Z.rem_mul_r by lia. reflexivity.
Qed.

Lemma le_value_range (l : list byte) : 0 <= le_value l < 256 ^ Z.of_nat (length l).
Proof.
  induction l as [|b l IH].
  - simpl. lia.
  - cbn [le_value length]. rewrite Nat2Z.inj_succ, Z.pow_succ_r by lia.
    pose proof (Z_of_byte_range b). lia.
Qed.

Lemma le_bytes_le_value (l : list byte) : le_bytes (length l) (le_value l) = l.
Proof.
  induction l as [|b l IH]; [reflexivity|].
  cbn [le_value length le_bytes]. pose proof (Z_of_byte_range b) as Hb.
  f_equal.
  - unfold byte_of_Z.
    replace ((Z_of_byte b + 256 * le_value l) mod 256) with (Z_of_byte b).
    + unfold Z_of_byte. rewrite N2Z.id, Byte.of_to_N. reflexivity.
    + rewrite (Z.mul_comm 256), Z.mod_add by lia.
      now rewrite Z.mod_small.
  - replace ((Z_of_byte b + 256 * le_value l) / 256) with (le_value l); [exact IH|].
    rewrite (Z.mul_comm 256), Z.div_add by lia.
    rewrite (Z.div_small (Z_of_byte b)) by lia. lia.
Qed.

Lemma pack_I_inv (z : Z) (d : list byte) :
  pack_I z = Ok d -> 0 <= z < 2 ^ 32 /\ d = le_bytes 4 z.
Proof.
  unfold pack_I.
  destruct (Z.leb_spec 0 z), (Z.ltb_spec z (2 ^ 32)); simpl; intros Hd;
    inversion Hd; auto.
Qed.

Lemma unpack_I_le_bytes (z : Z) :
  0 <= z < 2 ^ 32 -> unpack_I (le_bytes 4 z) = Ok z.
Proof.
  intros Hz. unfold unpack_I. rewrite le_bytes_length. cbn [Nat.eqb].
  rewrite le_value_le_bytes. f_equal. apply Z.mod_small.
  change (256 ^ Z.of_nat 4) with (2 ^ 32). lia.
Qed.

Lemma unpack_pack_I (z : Z) (d : list byte) : pack_I z = Ok d -> unpack_I d = Ok z.
Proof.
  intros H. apply pack_I_inv in H. destruct H as [Hz ->].
  now apply unpack_I_le_bytes.
Qed.

(** ** Vectors of dimension 3 *)

Lemma vec_sub_3 (a0 a1 a2 b0 b1 b2 : float) :
  vec_sub [a0; a1; a2] [b0; b1; b2]
  = Ok [float_sub a0 b0; float_sub a1 b1; float_sub a2 b2].
Proof. reflexivity. Qed.

Lemma vec_scale_3 (a0 a1 a2 s : float) :
  vec_scale [a0; a1; a2] s = Ok [float_mul a0 s; float_mul a1 s; float_mul a2 s].
Proof. reflexivity. Qed.

Lemma vec_cross_3 (u0 u1 u2 v0 v1 v2 : float) :
  vec_cross [u0; u1; u2] [v0; v1; v2]
  = Ok [float_sub (float_mul u1 v2) (float_mul u2 v1);
        float_sub (float_mul u2 v0) (float_mul u0 v2);
        float_sub (float_mul u0 v1) (float_mul u1 v0)].
Proof. reflexivity. Qed.

Lemma normalize_3_inv (a0 a1 a2 : float) (n : vec) :
  normalize [a0; a1; a2] = Ok n ->
  exists l r, vec_len [a0; a1; a2] = Ok l /\ float_div (float_of_int 1) l = Ok r
              /\ n = [float_mul a0 r; float_mul a1 r; float_mul a2 r].
Proof.
  unfold normalize. intros H.
  apply bind_Ok_inv in H. destruct H as (l & Hl & H).
  apply bind_Ok_inv in H. destruct H as (r & Hr & H).
  rewrite vec_scale_3 in H. inversion H. eauto.
Qed.

Lemma normal_of_inv (tri : triangle) (n : vec) :
  normal_of tri = Ok n -> exists nx ny nz, n = [nx; ny; nz].
Proof.
  destruct tri as [[[[a0 a1] a2] [[b0 b1] b2]] [[c0 c1] c2]].
  unfold normal_of. cbn [tri0 tri1 tri2 items].
  rewrite !vec_sub_3. cbn [bind]. rewrite vec_cross_3. cbn [bind].
  intros H. apply normalize_3_inv in H. destruct H as (l & r & _ & _ & ->).
  eauto.
Qed.

(** ** One record *)

Lemma pack_f_inv (x : float) (d : list byte) : pack_f x = Ok d -> d = field_f x.
Proof.
  unfold pack_f, field_f.
  destruct (is_finite x && is_infinite (to_single x)); intros H; inversion H.
  reflexivity.
Qed.

Lemma pack_fff_inv (x y z : float) (d : list byte) :
  pack_fff x y z = Ok d -> d = field_vec3 (x, y, z).
Proof.
  unfold pack_fff. intros H.
  apply bind_Ok_inv in H. destruct H as (dx & Hx & H).
  apply bind_Ok_inv in H. destruct H as (dy & Hy & H).
  apply bind_Ok_inv in H. destruct H as (dz & Hz & H).
  apply pack_f_inv in Hx, Hy, Hz. subst. inversion H. reflexivity.
Qed.

Lemma pack_vec3_inv (v : vec3) (d : list byte) :
  pack_vec3 v = Ok d -> d = field_vec3 v.
Proof.
  destruct v as [[x y] z]. apply pack_fff_inv.
Qed.

Lemma field_f_length (x : float) : length (field_f x) = 4%nat.
Proof. apply le_bytes_length. Qed.

Lemma field_vec3_length (v : vec3) : length (field_vec3 v) = 12%nat.
Proof.
  destruct v as [[x y] z]. unfold field_vec3.
  rewrite !length_app, !field_f_length. reflexivity.
Qed.

Lemma stl_record_length (n : vec3) (tri : triangle) :
  length (stl_record n tri) = 50%nat.
Proof.
  unfold stl_record.
  rewrite !length_app, !field_vec3_length, le_bytes_length. reflexivity.
Qed.

(** What a run of the loop body that ends well has done. *)
Lemma write_triangle_inv (tri : triangle) (st st' : wfile) :
  write_triangle tri st = (st', Ok tt) ->
  exists nx ny nz,
    normal_of tri = Ok [nx; ny; nz]
    /\ pack_vec [nx; ny; nz] = Ok (field_vec3 (nx, ny, nz))
    /\ st' = st ++ stl_record (nx, ny, nz) tri.
Proof.
  unfold write_triangle. intros H.
  step_lift H as n1 Hn1. step_lift H as n2 Hn2.
  step_lift H as c Hc. step_lift H as n Hnorm.
  assert (Hn : normal_of tri = Ok n).
  { unfold normal_of. rewrite Hn1, Hn2. cbn [bind]. rewrite Hc. exact Hnorm. }
  destruct (normal_of_inv _ _ Hn) as (nx & ny & nz & ->).
  step_lift H as dn Hdn. step_write H.
  step_lift H as d0 Hd0. step_write H.
  step_lift H as d1 Hd1. step_write H.
  step_lift H as d2 Hd2. step_write H.
  step_lift H as dh Hdh.
  apply fp_write_inv in H. destruct H as [-> _].
  exists nx, ny, nz. split; [exact Hn|].
  pose proof Hdn as Hp. cbn in Hp. apply pack_fff_inv in Hp. subst dn.
  split; [exact Hdn|].
  apply pack_vec3_inv in Hd0, Hd1, Hd2. subst.
  unfold pack_H in Hdh. simpl in Hdh. inversion Hdh.
  unfold stl_record. rewrite <- !app_assoc. reflexivity.
Qed.

Lemma emitted_length (tri : triangle) (rec : list byte) :
  emitted tri rec -> length rec = 50%nat.
Proof.
  intros (nx & ny & nz & _ & _ & ->). apply stl_record_length.
Qed.

(** ** The loop and the whole writer *)

Lemma for_each_write_inv (tris : list triangle) (st st' : wfile) :
  for_each write_triangle tris st = (st', Ok tt) ->
  exists recs, Forall2 emitted tris recs /\ st' = st ++ concat recs.
Proof.
  revert st. induction tris as [|tri tris IH]; intros st H.
  - cbn in H. inversion H. exists []. split; [constructor|].
    simpl. now rewrite app_nil_r.
  - cbn [for_each] in H. apply bindIO_Ok_inv in H.
    destruct H as ([] & st1 & Htri & H).
    apply write_triangle_inv in Htri.
    destruct Htri as (nx & ny & nz & Hn & Hp & ->).
    apply IH in H. destruct H as (recs & Hrecs & ->).
    exists (stl_record (nx, ny, nz) tri :: recs). split.
    + constructor; [|exact Hrecs]. exists nx, ny, nz. auto.
    + simpl. now rewrite <- app_assoc.
Qed.

Lemma write_stl_inv (tris : list triangle) (out : wfile) :
  write_stl tris [] = (out, Ok tt) ->
  Z.of_nat (length tris) < 2 ^ 32
  /\ exists recs,
       Forall2 emitted tris recs
       /\ out = header ++ le_bytes 4 (Z.of_nat (length tris)) ++ concat recs.
Proof.
  unfold write_stl. intros H.
  step_write H. step_lift H as d Hd. step_write H.
  apply pack_I_inv in Hd. destruct Hd as [Hlt ->].
  apply for_each_write_inv in H. destruct H as (recs & Hrecs & ->).
  split; [lia|]. exists recs. split; [exact Hrecs|].
  rewrite app_nil_l, <- app_assoc. reflexivity.
Qed.

Lemma concat_records_length (tris : list triangle) (recs : list (list byte)) :
  Forall2 emitted tris recs -> length (concat recs) = (50 * length tris)%nat.
Proof.
  induction 1 as [|tri rec tris recs Hrec _ IH]; [reflexivity|].
  cbn [concat length]. rewrite length_app, IH, (emitted_length _ _ Hrec). lia.
Qed.

Lemma header_length : length header = 80%nat.
Proof. reflexivity. Qed.

(** ** A written file only grows *)

Lemma appends_lift {A} (r : result A) : appends (lift r).
Proof. intros st. exists []. simpl. now rewrite app_nil_r. Qed.

Lemma appends_write (d : list byte) : appends (fp_write d).
Proof. intros st. exists d. reflexivity. Qed.

Lemma appends_ret {A} (a : A) : appends (ret a).
Proof. intros st. exists []. simpl. now rewrite app_nil_r. Qed.

Lemma appends_bind {A B} (c : IO wfile A) (k : A -> IO wfile B) :
  appends c -> (forall a, appends (k a)) -> appends (bindIO c k).
Proof.
  intros Hc Hk st. unfold bindIO. destruct (Hc st) as (d & Hd).
  destruct (c st) as [st1 [a|e]]; simpl in Hd; subst st1.
  - destruct (Hk a (st ++ d)) as (d' & Hd'). exists (d ++ d').
    rewrite Hd'. now rewrite app_assoc.
  - now exists d.
Qed.

Create HintDb appends.
#[local] Hint Resolve appends_lift appends_write appends_ret : appends.

Lemma appends_write_triangle (tri : triangle) : appends (write_triangle tri).
Proof.
  unfold write_triangle.
  repeat (apply appends_bind; [auto with appends | intro]).
  auto with appends.
Qed.

Lemma appends_for_each (tris : list triangle) :
  appends (for_each write_triangle tris).
Proof.
  induction tris as [|tri tris IH]; cbn [for_each].
  - apply appends_ret.
  - apply appends_bind; [apply appends_write_triangle | intros _; exact IH].
Qed.

(** ** Cutting a stream at a known length *)

Lemma firstn_exact {A} (n : nat) (l r : list A) :
  length l = n -> firstn n (l ++ r) = l.
Proof.
  revert n. induction l as [|x l IH]; intros n Hn; subst n; simpl.
  - reflexivity.
  - f_equal. now apply IH.
Qed.

Lemma skipn_exact {A} (n : nat) (l r : list A) :
  length l = n -> skipn n (l ++ r) = r.
Proof.
  revert n. induction l as [|x l IH]; intros n Hn; subst n; simpl.
  - reflexivity.
  - now apply IH.
Qed.

Lemma reference_run : snd (write_stl triangles []) = Ok tt.
Proof. vm_compute. reflexivity. Qed.

Lemma main_run (argv : list string) (environ : string -> option string)
    (fs : filesystem) :
  main argv environ fs
  = (fs_store fs "test.stl" (fst (write_stl triangles [])), Ok tt).
Proof.
  unfold main. pose proof reference_run as H.
  destruct (write_stl triangles []) as [written r]. simpl in H. now subst r.
Qed.

(** ** The claims on sizes and layout *)

(** C1: a run of the writer that completes on a mesh of N triangles leaves
    84 + 50 * N bytes, with N in the 4-byte little-endian count field at
    offset 80; the script itself completes on its hardcoded mesh of 12
    triangles, with 12 in the count field and 684 bytes in [test.stl]. *)
Theorem C1_count_and_size :
  (forall tris out,
      write_stl tris [] = (out, Ok tt) ->
      length out = (84 + 50 * length tris)%nat
      /\ firstn 4 (skipn 80 out) = le_bytes 4 (Z.of_nat (length tris))
      /\ unpack_I (firstn 4 (skipn 80 out)) = Ok (Z.of_nat (length tris)))
  /\ (forall argv environ fs,
        exists out,
          main argv environ fs = (fs_store fs "test.stl" out, Ok tt)
          /\ length triangles = 12%nat
          /\ firstn 4 (skipn 80 out) = [Byte.x0c; Byte.x00; Byte.x00; Byte.x00]
          /\ unpack_I (firstn 4 (skipn 80 out)) = Ok 12
          /\ length out = 684%nat).
Proof.
  split.
  - intros tris out H. apply write_stl_inv in H.
    destruct H as (Hlt & recs & Hrecs & ->).
    assert (Hcount : firstn 4 (skipn 80 (header ++ le_bytes 4 (Z.of_nat (length tris))
                                          ++ concat recs))
                     = le_bytes 4 (Z.of_nat (length tris))).
    { rewrite (skipn_exact 80) by apply header_length.
      apply firstn_exact, le_bytes_length. }
    split; [|split].
    + rewrite !length_app, header_length, le_bytes_length.
      rewrite (concat_records_length _ _ Hrecs). lia.
    + exact Hcount.
    + rewrite Hcount. apply unpack_I_le_bytes. lia.
  - intros argv environ fs. exists (fst (write_stl triangles [])).
    split; [apply main_run|]. vm_compute. repeat split.
Qed.

Lemma C1_count_and_size_witness :
  length (fst (write_stl (firstn 2 triangles) [])) = (84 + 50 * 2)%nat.
Proof.
  refine (proj1 (proj1 C1_count_and_size (firstn 2 triangles)
                   (fst (write_stl (firstn 2 triangles) [])) _)).
  vm_compute. reflexivity.
Defined.

(** C2: the header is 80 bytes long and every run, also one that fails
    later, writes it at the start of the stream. *)
Theorem C2_header_80_bytes :
  length header = 80%nat
  /\ forall tris, exists rest, fst (write_stl tris []) = header ++ rest.
Proof.
  split; [reflexivity|]. intros tris.
  assert (Hk : appends (d <- lift (pack_I (Z.of_nat (length tris))) ;;
                        fp_write d ;; for_each write_triangle tris)).
  { apply appends_bind; [auto with appends | intro].
    apply appends_bind; [auto with appends | intro].
    apply appends_for_each. }
  destruct (Hk header) as (rest & Hrest). exists rest.
  unfold write_stl. unfold bindIO at 1. cbn [fp_write app]. exact Hrest.
Qed.



(** ** The claims on the vector math *)

(** C4: on two vectors of dimension 3, [vec_cross] returns the vector of
    dimension 3 whose component i is u[j]*v[k] - u[k]*v[j] for each cyclic
    triple (i, j, k) of (0,1,2), (1,2,0), (2,0,1). *)
Theorem C4_cross_product (u v : vec) :
  length u = 3%nat -> length v = 3%nat ->
  exists s,
    vec_cross u v = Ok s
    /\ length s = 3%nat
    /\ forall i j k, In (i, j, k) cyclic ->
         item s i = float_sub (float_mul (item u j) (item v k))
                              (float_mul (item u k) (item v j)).
Proof.
  intros Hu Hv.
  destruct u as [|u0 [|u1 [|u2 [|? ?]]]]; try discriminate Hu.
  destruct v as [|v0 [|v1 [|v2 [|? ?]]]]; try discriminate Hv.
  rewrite vec_cross_3. eexists. split; [reflexivity|]. split; [reflexivity|].
  intros i j k Hin. unfold cyclic in Hin. simpl in Hin.
  destruct Hin as [E|[E|[E|[]]]]; inversion E; subst; reflexivity.
Qed.

Lemma C4_cross_product_witness :
  exists s,
    vec_cross (items (f1, m1, f1)) (items (m1, m1, f1)) = Ok s
    /\ item s 0 = float_of_int 0
    /\ item s 1 = float_of_int (-2)
    /\ item s 2 = float_of_int (-2).
Proof.
  destruct (C4_cross_product (items (f1, m1, f1)) (items (m1, m1, f1))
              eq_refl eq_refl) as (s & Hs & _ & Hc).
  exists s. split; [exact Hs|].
  rewrite (Hc 0 1 2)%nat by (simpl; auto).
  rewrite (Hc 1 2 0)%nat by (simpl; auto).
  rewrite (Hc 2 0 1)%nat by (simpl; auto).
  vm_compute. repeat split.
Defined.



(** The order of the operands of the cross product matters: exchanging the
    two edges of the first triangle of the mesh gives the opposite normal. *)
Remark cross_operand_order :
  let e1 := [float_of_int 0; float_of_int 0; float_of_int (-10)] in
  let e2 := [float_of_int 0; float_of_int (-10); float_of_int 0] in
  (normalize =<< vec_cross e1 e2) = Ok [m1; S754_zero true; S754_zero true]
  /\ (normalize =<< vec_cross e2 e1) = Ok [f1; S754_zero false; S754_zero false].
Proof. vm_compute. split; reflexivity. Qed.

(** ** Normalization and the division by zero *)

Lemma comprehension_getitem {A B} (f : A -> B) (pre a : list A) :
  comprehension (fun i => let* x := getitem (pre ++ a) i in Ok (f x))
                (seq (length pre) (length a))
  = Ok (map f a).
Proof.
  revert pre. induction a as [|x a IH]; intros pre; [reflexivity|].
  cbn [length seq comprehension map]. unfold getitem at 1.
  rewrite nth_error_app2 by lia. rewrite Nat.sub_diag. cbn [nth_error bind].
  specialize (IH (pre ++ [x])). rewrite <- app_assoc in IH. cbn [app] in IH.
  rewrite length_app, Nat.add_1_r in IH. rewrite IH. reflexivity.
Qed.

(** [vec_scale] never raises. *)
Lemma vec_scale_map (a : vec) (s : float) :
  vec_scale a s = Ok (map (fun x => float_mul x s) a).
Proof.
  unfold vec_scale, range. exact (comprehension_getitem _ [] a).
Qed.

Lemma comprehension_Raise_inv {A B} (f : A -> result B) (l : list A) (e : exn) :
  comprehension f l = Raise e -> exists x, In x l /\ f x = Raise e.
Proof.
  induction l as [|x l IH]; cbn [comprehension]; [discriminate|].
  destruct (f x) as [y|e'] eqn:Ex; cbn [bind].
  - destruct (comprehension f l) as [ys|e'']; cbn [bind]; [discriminate|].
    intros H. inversion H; subst. destruct IH as (x' & Hin & Hx'); [reflexivity|].
    exists x'. split; [now right | exact Hx'].
  - intros H. inversion H; subst. exists x. split; [now left | exact Ex].
Qed.

(** The magnitude never raises a [ZeroDivisionError]. *)
Lemma float_pow_2_Raise_inv (x : float) (e : exn) :
  float_pow_2 x = Raise e -> e = OverflowError.
Proof.
  unfold float_pow_2.
  destruct (is_finite x && is_infinite (float_mul x x)); intros H;
    now inversion H.
Qed.

Lemma float_pow_half_Raise_inv (x : float) (e : exn) :
  float_pow_half x = Raise e -> e = ValueError.
Proof.
  destruct x as [s|s| |[] m e']; simpl; intros H; now inversion H.
Qed.

Lemma binary_round_aux_sign (s : bool) (m e : Z) (l : location) :
  s = false -> sign_clear (binary_round_aux prec emax s m e l) = true.
Proof.
  intros ->. unfold binary_round_aux.
  destruct (shr_fexp prec emax m e l) as [mrs' e'].
  destruct (shr_fexp prec emax _ e' loc_Exact) as [mrs'' e''].
  destruct (shr_m mrs'') as [|p|p]; [reflexivity| |reflexivity].
  now destruct (e'' <=? emax - prec).
Qed.

Lemma float_mul_square_sign (x : float) : sign_clear (float_mul x x) = true.
Proof.
  destruct x as [[]|[]| |s m e]; try reflexivity.
  unfold float_mul, SFmul. apply binary_round_aux_sign. now destruct s.
Qed.

Lemma float_add_sign (x y : float) :
  sign_clear x = true -> sign_clear y = true -> sign_clear (float_add x y) = true.
Proof.
  destruct x as [[]|[]| |[] mx ex]; try discriminate;
    destruct y as [[]|[]| |[] my ey]; try discriminate; intros _ _;
    try reflexivity.
  unfold float_add, SFadd. cbn [cond_Zopp]. unfold binary_normalize.
  destruct (shl_align mx ex (Z.min ex ey)) as [mx' ex'].
  destruct (shl_align my ey (Z.min ex ey)) as [my' ey']. cbn [fst Z.add].
  unfold binary_round.
  destruct (shl_align _ _ _) as [mz ez]. now apply binary_round_aux_sign.
Qed.

Lemma comprehension_squares_sign (a sq : list float) :
  comprehension float_pow_2 a = Ok sq ->
  Forall (fun y => sign_clear y = true) sq.
Proof.
  revert sq. induction a as [|x a IH]; intros sq H.
  - inversion H. constructor.
  - cbn [comprehension] in H.
    apply bind_Ok_inv in H. destruct H as (y & Hy & H).
    apply bind_Ok_inv in H. destruct H as (ys & Hys & H). inversion H; subst.
    constructor; [|now apply IH].
    unfold float_pow_2 in Hy.
    destruct (is_finite x && is_infinite (float_mul x x)); inversion Hy.
    apply float_mul_square_sign.
Qed.

Lemma fold_add_sign (l : list float) (acc : float) :
  sign_clear acc = true -> Forall (fun y => sign_clear y = true) l ->
  sign_clear (fold_left float_add l acc) = true.
Proof.
  intros Hacc Hl. revert acc Hacc.
  induction Hl as [|y l Hy _ IH]; intros acc Hacc; [exact Hacc|].
  cbn [fold_left]. apply IH. now apply float_add_sign.
Qed.

(** The sum of squares is never below zero, so that the magnitude raises on
    the overflow of a square only. *)
Lemma vec_len_Raise_inv (a : vec) (e : exn) :
  vec_len a = Raise e -> e = OverflowError.
Proof.
  unfold vec_len.
  destruct (comprehension float_pow_2 a) as [sq|e'] eqn:E; cbn [bind].
  - intros H. exfalso.
    assert (Hs : sign_clear (py_sum sq) = true).
    { apply fold_add_sign; [reflexivity|].
      now apply comprehension_squares_sign with a. }
    destruct (py_sum sq) as [s|s| |[] m e'']; try discriminate.
  - intros H. inversion H; subst.
    apply comprehension_Raise_inv in E. destruct E as (x & _ & Hx).
    now apply float_pow_2_Raise_inv in Hx.
Qed.

Lemma for_each_app {S A} (body : A -> IO S unit) (l1 l2 : list A) (st st1 : S) :
  for_each body l1 st = (st1, Ok tt) ->
  for_each body (l1 ++ l2) st = for_each body l2 st1.
Proof.
  revert st. induction l1 as [|x l1 IH]; intros st H.
  - cbn in H. now inversion H.
  - cbn [for_each app] in *. unfold bindIO in *.
    destruct (body x st) as [st' [[]|e]]; [now apply IH | discriminate].
Qed.

Lemma write_triangle_Raise (tri : triangle) (st : wfile) (e : exn) :
  normal_of tri = Raise e -> write_triangle tri st = (st, Raise e).
Proof.
  unfold normal_of, write_triangle, bindIO, lift. intros H.
  destruct (vec_sub (items (tri0 tri)) (items (tri1 tri))) as [e1|x];
    cbn [bind] in H; [|now inversion H].
  destruct (vec_sub (items (tri1 tri)) (items (tri2 tri))) as [e2|x];
    cbn [bind] in H; [|now inversion H].
  destruct (vec_cross e1 e2) as [c|x]; cbn [bind] in H; [|now inversion H].
  now rewrite H.
Qed.

(** C6: normalization raises [ZeroDivisionError] exactly when the magnitude
    it computes is a zero; any other magnitude, however small, is divided by
    without a guard; and the error ends the loop at that triangle: the stream
    keeps what the triangles before it wrote and nothing is written after. *)
Theorem C6_normalize_division_by_zero :
  (forall a : vec,
      normalize a = Raise ZeroDivisionError
      <-> exists l, vec_len a = Ok l /\ is_zero l = true)
  /\ (forall (a : vec) (l : float),
        vec_len a = Ok l -> is_zero l = false ->
        normalize a
        = Ok (map (fun x => float_mul x (SFdiv prec emax (float_of_int 1) l)) a))
  /\ (forall (before : list triangle) (tri : triangle) (rest : list triangle)
             (st st1 : wfile),
        for_each write_triangle before st = (st1, Ok tt) ->
        normal_of tri = Raise ZeroDivisionError ->
        for_each write_triangle (before ++ tri :: rest) st
        = (st1, Raise ZeroDivisionError)).
Proof.
  split; [|split].
  - intros a. unfold normalize. split.
    + destruct (vec_len a) as [l|e] eqn:El; cbn [bind].
      * unfold float_div. destruct (is_zero l) eqn:Ez; cbn [bind].
        -- intros _. now exists l.
        -- rewrite vec_scale_map. discriminate.
      * intros H. inversion H; subst.
        apply vec_len_Raise_inv in El. discriminate.
    + intros (l & -> & Hz). cbn [bind]. unfold float_div. now rewrite Hz.
  - intros a l Hl Hz. unfold normalize. rewrite Hl. cbn [bind].
    unfold float_div. rewrite Hz. cbn [bind]. apply vec_scale_map.
  - intros before tri rest st st1 Hbefore Hn.
    rewrite (for_each_app _ _ _ _ _ Hbefore). cbn [for_each]. unfold bindIO.
    now rewrite (write_triangle_Raise _ _ _ Hn).
Qed.

Lemma C6_normalize_division_by_zero_witness :
  normalize [float_of_int 0; float_of_int 0; float_of_int 0]
  = Raise ZeroDivisionError
  /\ normalize [float_of_int 3; float_of_int 0; float_of_int 4]
     = Ok (map (fun x => float_mul x
                  (SFdiv prec emax (float_of_int 1) (float_of_int 5)))
             [float_of_int 3; float_of_int 0; float_of_int 4])
  /\ for_each write_triangle (firstn 2 triangles ++ point_triangle :: triangles) []
     = (fst (for_each write_triangle (firstn 2 triangles) []),
        Raise ZeroDivisionError).
Proof.
  destruct C6_normalize_division_by_zero as (Hiff & Hdiv & Hloop).
  split; [|split].
  - apply Hiff. exists (float_of_int 0). split; vm_compute; reflexivity.
  - apply Hdiv; vm_compute; reflexivity.
  - apply Hloop; vm_compute; reflexivity.
Defined.

(** ** The magnitude of the normal and the hardcoded mesh *)

(** Settles a closed statement on exact values by evaluation. *)
Ltac by_evaluation :=
  repeat match goal with
         | |- exists _, _ => eexists
         | |- _ /\ _ => split
         | |- ~ _ => let H := fresh in intro H; vm_compute in H; discriminate H
         | |- _ = _ => vm_compute; reflexivity
         | |- (_ == _)%Q => vm_compute; reflexivity
         | |- (_ <= _)%Q => vm_compute; discriminate
         end.



(** C9: for each of the 12 hardcoded triangles the two edges are non-zero
    and not parallel, the cross product of the edges the script computes has
    a magnitude that is not zero, and the loop runs through the whole mesh
    without raising. *)
Theorem C9_mesh_never_divides_by_zero :
  length triangles = 12%nat
  /\ Forall
       (fun tri =>
          non_degenerate tri
          /\ exists edge1 edge2 c l r,
               vec_sub (items (tri0 tri)) (items (tri1 tri)) = Ok edge1
               /\ vec_sub (items (tri1 tri)) (items (tri2 tri)) = Ok edge2
               /\ vec_cross edge1 edge2 = Ok c
               /\ vec_len c = Ok l
               /\ is_zero l = false
               /\ float_div (float_of_int 1) l = Ok r)
       triangles
  /\ (exists out, for_each write_triangle triangles [] = (out, Ok tt))
  /\ (exists out, write_stl triangles [] = (out, Ok tt)).
Proof.
  split; [reflexivity|]. split; [|split].
  - unfold triangles, unit_triangles. cbn [map].
    repeat (apply Forall_cons || apply Forall_nil);
      (split; [unfold non_degenerate; by_evaluation|]);
      (do 5 eexists; repeat (split; [vm_compute; reflexivity|]);
       vm_compute; reflexivity).
  - eexists. vm_compute. reflexivity.
  - eexists. vm_compute. reflexivity.
Qed.

(** ** Reading back what was written *)

Lemma bindIO_eq {S A B} (c : IO S A) (k : A -> IO S B) (st st1 : S) (a : A) :
  c st = (st1, Ok a) -> bindIO c k st = k a st1.
Proof. unfold bindIO. now intros ->. Qed.

Lemma fp_read_exact (n : nat) (d r : list byte) (t : nat) :
  length d = n ->
  fp_read n {| unread := d ++ r; tell := t |}
  = ({| unread := r; tell := (t + n)%nat |}, Ok d).
Proof.
  intros Hn. unfold fp_read. cbn [unread tell].
  now rewrite (firstn_exact n), (skipn_exact n), Hn by exact Hn.
Qed.

Lemma unpack_fff_fields (v : vec3) : unpack_fff (field_vec3 v) = Ok (read_back3 v).
Proof.
  unfold unpack_fff. rewrite field_vec3_length. cbn [Nat.eqb].
  destruct v as [[x y] z]. reflexivity.
Qed.

Lemma unpack_H_zero : unpack_H (le_bytes 2 0) = Ok 0.
Proof. reflexivity. Qed.

Lemma read_record_written (n : vec3) (tri : triangle) (r : list byte) (t : nat) :
  read_record {| unread := stl_record n tri ++ r; tell := t |}
  = ({| unread := r; tell := (t + 50)%nat |}, Ok (parsed_record n tri)).
Proof.
  unfold stl_record, read_record. rewrite <- !app_assoc.
  do 4 (erewrite bindIO_eq by (apply fp_read_exact, field_vec3_length);
        erewrite bindIO_eq by (unfold lift; rewrite unpack_fff_fields; reflexivity)).
  erewrite bindIO_eq by (apply fp_read_exact, le_bytes_length).
  erewrite bindIO_eq by (unfold lift; rewrite unpack_H_zero; reflexivity).
  unfold ret, parsed_record. do 2 f_equal. lia.
Qed.

Lemma read_records_written (tris : list triangle) (recs : list (list byte))
    (r : list byte) (t : nat) :
  Forall2 emitted tris recs ->
  exists rs,
    read_records (length tris) {| unread := concat recs ++ r; tell := t |}
    = ({| unread := r; tell := (t + 50 * length tris)%nat |}, Ok rs)
    /\ Forall2
         (fun tri p =>
            exists nx ny nz,
              normal_of tri = Ok [nx; ny; nz]
              /\ p = parsed_record (nx, ny, nz) tri)
         tris rs.
Proof.
  intros H. revert t. induction H as [|tri rec tris recs Hrec _ IH]; intros t.
  - exists []. split; [|constructor]. cbn. unfold ret. do 2 f_equal. lia.
  - destruct Hrec as (nx & ny & nz & Hn & _ & ->).
    destruct (IH (t + 50)%nat) as (rs & Hrs & Hall).
    exists (parsed_record (nx, ny, nz) tri :: rs). split.
    + cbn [length read_records concat]. rewrite <- app_assoc.
      erewrite bindIO_eq by apply read_record_written.
      erewrite bindIO_eq by exact Hrs.
      unfold ret. do 2 f_equal. lia.
    + constructor; [|exact Hall]. exists nx, ny, nz. auto.
Qed.

(** C8: parsing a stream that a completed run has written gives back the 80
    bytes of the header, the number of triangles, and for each triangle, in
    order, the floats found at the bytes of its normal and of its three
    vertices and the attribute 0; the parse ends at the end of the stream.
    The word decoded for a float holds the 4 bytes written for it, and on
    the hardcoded mesh the floats read back are the floats written. *)
Theorem C8_round_trip :
  (forall (tris : list triangle) (out : wfile),
      write_stl tris [] = (out, Ok tt) ->
      exists rs,
        read_stl (open_rb out)
        = ({| unread := []; tell := length out |},
           Ok {| p_header := header;
                 p_count := Z.of_nat (length tris);
                 p_records := rs;
                 p_tell := length out |})
        /\ Forall2
             (fun tri p =>
                exists nx ny nz,
                  normal_of tri = Ok [nx; ny; nz]
                  /\ p = parsed_record (nx, ny, nz) tri)
             tris rs)
  /\ (forall x : float, le_bytes 4 (le_value (field_f x)) = field_f x)
  /\ (exists p,
        snd (read_stl (open_rb (fst (write_stl triangles [])))) = Ok p
        /\ p_header p = header
        /\ p_count p = 12
        /\ map rec_a (p_records p) = map tri0 triangles
        /\ map rec_b (p_records p) = map tri1 triangles
        /\ map rec_c (p_records p) = map tri2 triangles
        /\ map (fun r => Ok (items (rec_n r))) (p_records p)
           = map normal_of triangles
        /\ map rec_attributes (p_records p) = repeat 0 12).
Proof.
  split; [|split].
  - intros tris out H. apply write_stl_inv in H.
    destruct H as (Hlt & recs & Hrecs & ->).
    destruct (read_records_written tris recs [] 84 Hrecs) as (rs & Hrs & Hall).
    exists rs. split; [|exact Hall].
    assert (Hlen : length (header ++ le_bytes 4 (Z.of_nat (length tris))
                           ++ concat recs) = (84 + 50 * length tris)%nat).
    { rewrite !length_app, header_length, le_bytes_length.
      rewrite (concat_records_length _ _ Hrecs). lia. }
    rewrite Hlen. unfold read_stl, open_rb.
    erewrite bindIO_eq by (apply fp_read_exact, header_length).
    erewrite bindIO_eq by (apply fp_read_exact, le_bytes_length).
    erewrite bindIO_eq
      by (unfold lift; rewrite unpack_I_le_bytes by lia; reflexivity).
    rewrite Nat2Z.id. rewrite <- (app_nil_r (concat recs)).
    cbn [Nat.add]. erewrite bindIO_eq by exact Hrs.
    reflexivity.
  - intros x. unfold field_f at 1.
    rewrite <- (le_bytes_length 4 (bits_of_single (to_single x))) at 1.
    apply le_bytes_le_value.
  - eexists. split; [vm_compute; reflexivity|].
    repeat split; vm_compute; reflexivity.
Qed.

Lemma C8_round_trip_witness :
  exists rs,
    read_stl (open_rb (fst (write_stl (firstn 2 triangles) [])))
    = ({| unread := []; tell := 184 |},
       Ok {| p_header := header; p_count := 2; p_records := rs; p_tell := 184 |}).
Proof.
  destruct (proj1 C8_round_trip (firstn 2 triangles)
              (fst (write_stl (firstn 2 triangles) [])))
    as (rs & Hread & _).
  - vm_compute. reflexivity.
  - exists rs. exact Hread.
Defined.

(** ** When the writer completes *)

Lemma write_triangle_complete (tri : triangle) (st : wfile) :
  writable tri -> exists rec, write_triangle tri st = (st ++ rec, Ok tt).
Proof.
  intros (n & dn & d0 & d1 & d2 & Hn & Hdn & Hd0 & Hd1 & Hd2).
  unfold normal_of in Hn.
  apply bind_Ok_inv in Hn. destruct Hn as (edge1 & He1 & Hn).
  apply bind_Ok_inv in Hn. destruct Hn as (edge2 & He2 & Hn).
  apply bind_Ok_inv in Hn. destruct Hn as (c & Hc & Hn).
  exists (dn ++ d0 ++ d1 ++ d2 ++ le_bytes 2 0).
  unfold write_triangle, bindIO, lift, fp_write.
  rewrite He1, He2, Hc, Hn, Hdn, Hd0, Hd1, Hd2. cbn [pack_H Z.leb Z.ltb andb].
  change (pack_H 0) with (Ok (le_bytes 2 0)). cbv iota.
  rewrite <- !app_assoc. reflexivity.
Qed.

Lemma for_each_write_complete (tris : list triangle) (st : wfile) :
  Forall writable tris ->
  exists out, for_each write_triangle tris st = (out, Ok tt).
Proof.
  intros H. revert st. induction H as [|tri tris Htri _ IH]; intros st.
  - now exists st.
  - destruct (write_triangle_complete tri st Htri) as (rec & Hrec).
    destruct (IH (st ++ rec)) as (out & Hout). exists out.
    cbn [for_each]. now rewrite (bindIO_eq _ _ _ _ _ Hrec).
Qed.

(** The writer completes exactly on the meshes of fewer than 2^32 triangles
    that are all writable. *)
Lemma write_stl_completes_iff (tris : list triangle) :
  (exists out, write_stl tris [] = (out, Ok tt))
  <-> Z.of_nat (length tris) < 2 ^ 32 /\ Forall writable tris.
Proof.
  split.
  - intros (out & H). unfold write_stl in H.
    step_write H. step_lift H as d Hd. step_write H.
    apply pack_I_inv in Hd. destruct Hd as [Hlt ->]. split; [lia|].
    revert H. generalize (([] ++ header) ++ le_bytes 4 (Z.of_nat (length tris))).
    clear Hlt. induction tris as [|tri tris IH]; intros st H; constructor.
    + cbn [for_each] in H. apply bindIO_Ok_inv in H.
      destruct H as ([] & st1 & Htri & _). unfold write_triangle in Htri.
      step_lift Htri as n1 Hn1. step_lift Htri as n2 Hn2.
      step_lift Htri as c Hc. step_lift Htri as n Hnorm.
      step_lift Htri as dn Hdn. step_write Htri.
      step_lift Htri as d0 Hd0. step_write Htri.
      step_lift Htri as d1 Hd1. step_write Htri.
      step_lift Htri as d2 Hd2. step_write Htri.
      exists n, dn, d0, d1, d2. repeat (split; [|assumption || split]);
        try assumption.
      unfold normal_of. rewrite Hn1, Hn2. cbn [bind]. now rewrite Hc.
    + cbn [for_each] in H. apply bindIO_Ok_inv in H.
      destruct H as ([] & st1 & _ & H). now apply IH with st1.
  - intros [Hlt Hall]. unfold write_stl.
    destruct (for_each_write_complete tris
                (([] ++ header) ++ le_bytes 4 (Z.of_nat (length tris))) Hall)
      as (out & Hout).
    exists out. unfold bindIO at 1. cbn [fp_write].
    unfold bindIO at 1, lift, pack_I.
    destruct (Z.leb_spec 0 (Z.of_nat (length tris))); [|lia].
    destruct (Z.ltb_spec (Z.of_nat (length tris)) (2 ^ 32)); [|lia].
    cbn [andb]. unfold bindIO at 1. cbn [fp_write]. exact Hout.
Qed.

(** ** Determinism *)



(** * Further properties of the vector math *)

Lemma comprehension_getitem2 (f : float -> float -> float) (a b pa pb : vec) :
  length pa = length pb -> length a = length b ->
  comprehension
    (fun i => let* x := getitem (pa ++ a) i in
              let* y := getitem (pb ++ b) i in
              Ok (f x y))
    (seq (length pa) (length a))
  = Ok (zip_with f a b).
Proof.
  revert b pa pb. induction a as [|x a IH]; intros b pa pb Hp Hab.
  - reflexivity.
  - destruct b as [|y b]; [discriminate Hab|].
    cbn [length seq comprehension]. unfold getitem at 1 2.
    rewrite nth_error_app2 by lia. rewrite Nat.sub_diag.
    rewrite nth_error_app2 by lia. rewrite Hp, Nat.sub_diag.
    cbn [nth_error bind].
    specialize (IH b (pa ++ [x]) (pb ++ [y])).
    rewrite <- !app_assoc in IH. cbn [app] in IH.
    rewrite !length_app, Nat.add_1_r in IH. rewrite <- Hp.
    rewrite IH; [reflexivity| cbn; lia | now injection Hab].
Qed.

Lemma zip_with_length (f : float -> float -> float) (a b : vec) :
  length a = length b -> length (zip_with f a b) = length a.
Proof.
  intros H. unfold zip_with. rewrite length_map, length_combine. lia.
Qed.

(** X1: [vec_sub] raises [AssertionError] exactly on sequences of different
    lengths, whatever they hold; on sequences of one length it returns the
    differences [a[i] - b[i]], in order and as many as the operands have. *)
Theorem X1_vec_sub (a b : vec) :
  (length a <> length b -> vec_sub a b = Raise AssertionError)
  /\ (length a = length b ->
      vec_sub a b = Ok (zip_with float_sub a b)
      /\ length (zip_with float_sub a b) = length a).
Proof.
  unfold vec_sub, range. split; intros H.
  - apply Nat.eqb_neq in H. now rewrite H.
  - rewrite (proj2 (Nat.eqb_eq _ _) H). cbn [py_assert bind].
    split; [|now apply zip_with_length].
    exact (comprehension_getitem2 float_sub a b [] [] eq_refl H).
Qed.

Lemma X1_vec_sub_witness :
  vec_sub [f1; m1] [f1; m1; f1] = Raise AssertionError
  /\ vec_sub [f1; m1] [m1; m1] = Ok [float_of_int 2; float_of_int 0].
Proof.
  split.
  - apply (proj1 (X1_vec_sub [f1; m1] [f1; m1; f1])). cbn. lia.
  - refine (proj1 (proj2 (X1_vec_sub [f1; m1] [m1; m1]) _)). reflexivity.
Defined.

Lemma float_add_comm (x y : float) : float_add x y = float_add y x.
Proof.
  unfold float_add.
  destruct x as [[]|[]| |sx mx ex], y as [[]|[]| |sy my ey]; try reflexivity.
  unfold SFadd. rewrite (Z.min_comm ey ex). f_equal. apply Z.add_comm.
Qed.

Lemma zip_with_comm (f : float -> float -> float) (a b : vec) :
  (forall x y, f x y = f y x) -> zip_with f a b = zip_with f b a.
Proof.
  intros Hf. unfold zip_with. revert b.
  induction a as [|x a IH]; intros [|y b]; cbn; try reflexivity.
  now rewrite Hf, IH.
Qed.

(** X2: [vec_add] raises [AssertionError] exactly on sequences of different
    lengths and otherwise returns the sums [a[i] + b[i]]; the operands can be
    exchanged, also in the error case. *)
Theorem X2_vec_add (a b : vec) :
  (length a <> length b -> vec_add a b = Raise AssertionError)
  /\ (length a = length b -> vec_add a b = Ok (zip_with float_add a b))
  /\ vec_add a b = vec_add b a.
Proof.
  assert (Hne : forall a b : vec,
             length a <> length b -> vec_add a b = Raise AssertionError).
  { intros a' b' H. unfold vec_add. apply Nat.eqb_neq in H. now rewrite H. }
  assert (Heq : forall a b : vec,
             length a = length b -> vec_add a b = Ok (zip_with float_add a b)).
  { intros a' b' H. unfold vec_add, range.
    rewrite (proj2 (Nat.eqb_eq _ _) H). cbn [py_assert bind].
    exact (comprehension_getitem2 float_add a' b' [] [] eq_refl H). }
  split; [apply Hne|]. split; [apply Heq|].
  destruct (Nat.eq_dec (length a) (length b)) as [H|H].
  - rewrite (Heq a b H), (Heq b a (eq_sym H)). f_equal.
    apply zip_with_comm, float_add_comm.
  - rewrite (Hne a b H), (Hne b a); [reflexivity | congruence].
Qed.

Lemma X2_vec_add_witness :
  vec_add [f1] [] = Raise AssertionError
  /\ vec_add [f1; m1] [f1; f1] = Ok [float_of_int 2; float_of_int 0].
Proof.
  split.
  - apply (proj1 (X2_vec_add [f1] [])). cbn. lia.
  - refine (proj1 (proj2 (X2_vec_add [f1; m1] [f1; f1])) _). reflexivity.
Defined.

(** X3: [vec_scale] never raises: on a sequence of any length it returns the
    products [a[i] * s], in order and as many as the sequence has. *)
Theorem X3_vec_scale (a : vec) (s : float) :
  vec_scale a s = Ok (map (fun x => float_mul x s) a)
  /\ length (map (fun x => float_mul x s) a) = length a.
Proof.
  split; [apply vec_scale_map | apply length_map].
Qed.

Lemma for_acc_cross_tail (u v s : vec) (c : float) (m k : nat) :
  cross_term u v 0 1 = Ok c ->
  for_acc (vec_cross_step u v) (seq (S (S m)) k) s = Ok (s ++ repeat c k).
Proof.
  intros Hc. revert m s. induction k as [|k IH]; intros m s.
  - cbn. now rewrite app_nil_r.
  - cbn [seq for_acc vec_cross_step]. rewrite Hc. cbn [bind].
    rewrite IH. rewrite <- app_assoc. reflexivity.
Qed.

(** X4: [vec_cross] outside dimension 3.  Sequences of different lengths
    raise [AssertionError]; two empty sequences give the empty list; in
    dimensions 1 and 2 the first component already indexes out of range and
    raises [IndexError]; in a dimension above 3 the result has that dimension
    and every component from index 2 on is [u[0]*v[1] - u[1]*v[0]]. *)
Theorem X4_vec_cross_dimensions :
  (forall u v : vec, length u <> length v -> vec_cross u v = Raise AssertionError)
  /\ vec_cross [] [] = Ok []
  /\ (forall u0 v0 : float, vec_cross [u0] [v0] = Raise IndexError)
  /\ (forall u0 u1 v0 v1 : float, vec_cross [u0; u1] [v0; v1] = Raise IndexError)
  /\ (forall (u0 u1 u2 v0 v1 v2 : float) (u' v' : vec),
        length u' = length v' ->
        vec_cross (u0 :: u1 :: u2 :: u') (v0 :: v1 :: v2 :: v')
        = Ok ([float_sub (float_mul u1 v2) (float_mul u2 v1);
               float_sub (float_mul u2 v0) (float_mul u0 v2);
               float_sub (float_mul u0 v1) (float_mul u1 v0)]
              ++ repeat (float_sub (float_mul u0 v1) (float_mul u1 v0))
                   (length u'))).
Proof.
  split; [|split; [|split; [|split]]]; try reflexivity.
  - intros u v H. unfold vec_cross. apply Nat.eqb_neq in H. now rewrite H.
  - intros u0 u1 u2 v0 v1 v2 u' v' H. unfold vec_cross, range.
    cbn [length]. rewrite H, Nat.eqb_refl. cbn [py_assert bind].
    cbn [seq for_acc vec_cross_step]. cbn [cross_term getitem nth_error bind app].
    rewrite <- H.
    exact (for_acc_cross_tail (u0 :: u1 :: u2 :: u') (v0 :: v1 :: v2 :: v')
             [float_sub (float_mul u1 v2) (float_mul u2 v1);
              float_sub (float_mul u2 v0) (float_mul u0 v2);
              float_sub (float_mul u0 v1) (float_mul u1 v0)]
             (float_sub (float_mul u0 v1) (float_mul u1 v0))
             1 (length u') eq_refl).
Qed.

Lemma X4_vec_cross_dimensions_witness :
  vec_cross [f1] [f1; f1] = Raise AssertionError
  /\ vec_cross [f1; m1; f1; f1; m1] [m1; m1; f1; f1; f1]
     = Ok [float_of_int 0; float_of_int (-2); float_of_int (-2);
           float_of_int (-2); float_of_int (-2)].
Proof.
  destruct X4_vec_cross_dimensions as (Hlen & _ & _ & _ & Hdim).
  split.
  - apply Hlen. cbn. lia.
  - rewrite (Hdim f1 m1 f1 m1 m1 f1 [f1; m1] [f1; f1]) by reflexivity.
    vm_compute. reflexivity.
Defined.

(** ** The magnitude *)

Lemma comprehension_Raise_intro {A B} (f : A -> result B) (l : list A) (x : A)
    (e : exn) :
  In x l -> f x = Raise e -> exists e', comprehension f l = Raise e'.
Proof.
  induction l as [|y l IH]; intros Hin Hx; [destruct Hin|].
  cbn [comprehension]. destruct (f y) as [z|e'] eqn:Ey; cbn [bind]; [|eauto].
  destruct Hin as [->|Hin]; [congruence|].
  destruct (IH Hin Hx) as (e'' & ->). cbn [bind]. eauto.
Qed.

Lemma float_pow_half_sign (x y : float) :
  float_pow_half x = Ok y -> sign_clear y = true.
Proof.
  destruct x as [s|s| |[] m e]; cbn [float_pow_half]; intros H;
    inversion H; try reflexivity.
  unfold SFsqrt.
  destruct (SFsqrt_core_binary prec emax (Z.pos m) e) as [[mz ez] lz].
  now apply binary_round_aux_sign.
Qed.

(** X5: the magnitude.  [vec_len] raises exactly when the square of a
    finite component overflows, and it is an [OverflowError] then; a result
    is never below zero (it is a NaN or has the sign bit clear); the
    magnitude of the empty sequence is 0.0. *)
Theorem X5_vec_len (a : vec) :
  (forall e, vec_len a = Raise e -> e = OverflowError)
  /\ ((exists e, vec_len a = Raise e)
      <-> exists x, In x a /\ is_finite x = true
                    /\ is_infinite (float_mul x x) = true)
  /\ (forall l, vec_len a = Ok l -> sign_clear l = true)
  /\ vec_len [] = Ok (S754_zero false).
Proof.
  split; [apply vec_len_Raise_inv|]. split; [|split; [|reflexivity]].
  - split.
    + intros (e & H). unfold vec_len in H.
      destruct (comprehension float_pow_2 a) as [sq|e'] eqn:E; cbn [bind] in H.
      * exfalso. pose proof (vec_len_Raise_inv a e) as Hv. unfold vec_len in Hv.
        rewrite E in Hv. cbn [bind] in Hv. specialize (Hv H). subst e.
        apply float_pow_half_Raise_inv in H. discriminate.
      * apply comprehension_Raise_inv in E. destruct E as (x & Hin & Hx).
        exists x. split; [exact Hin|]. unfold float_pow_2 in Hx.
        destruct (is_finite x) eqn:Ef, (is_infinite (float_mul x x)) eqn:Ei;
          cbn [andb] in Hx; try discriminate. auto.
    + intros (x & Hin & Hf & Hi).
      assert (Hx : float_pow_2 x = Raise OverflowError).
      { unfold float_pow_2. now rewrite Hf, Hi. }
      destruct (comprehension_Raise_intro _ _ _ _ Hin Hx) as (e & He).
      exists e. unfold vec_len. now rewrite He.
  - intros l H. unfold vec_len in H.
    apply bind_Ok_inv in H. destruct H as (sq & _ & H).
    now apply float_pow_half_sign in H.
Qed.

Lemma X5_vec_len_witness :
  vec_len [f1; float_of_dyadic 1 600] = Raise OverflowError
  /\ sign_clear (float_of_int 5) = true.
Proof.
  destruct (X5_vec_len [f1; float_of_dyadic 1 600]) as (Hov & Hiff & _).
  destruct (X5_vec_len [float_of_int 3; float_of_int 0; float_of_int (-4)])
    as (_ & _ & Hsign & _).
  split.
  - destruct (proj2 Hiff) as (e & He).
    + exists (float_of_dyadic 1 600). split; [cbn; auto|].
      split; vm_compute; reflexivity.
    + rewrite He. f_equal. now apply Hov.
  - apply Hsign. vm_compute. reflexivity.
Defined.

(** ** Triangles without area *)

Lemma float_sub_diag (x : float) :
  is_finite x = true -> float_sub x x = S754_zero false.
Proof.
  destruct x as [[]|s| |s m e]; try discriminate; intros _; try reflexivity.
  unfold float_sub, SFsub. rewrite Z.sub_diag. reflexivity.
Qed.

Lemma float_mul_zero_l (z b : float) :
  is_zero z = true -> is_finite b = true -> is_zero (float_mul z b) = true.
Proof.
  destruct z; try discriminate. destruct b; try discriminate; reflexivity.
Qed.

Lemma float_mul_zero_r (b z : float) :
  is_zero z = true -> is_finite b = true -> is_zero (float_mul b z) = true.
Proof.
  destruct z; try discriminate. destruct b; try discriminate; reflexivity.
Qed.

Lemma float_sub_zeros (x y : float) :
  is_zero x = true -> is_zero y = true -> is_zero (float_sub x y) = true.
Proof.
  destruct x as [[]| | |]; try discriminate;
    destruct y as [[]| | |]; try discriminate; reflexivity.
Qed.

Lemma normalize_zeros (c0 c1 c2 : float) :
  is_zero c0 = true -> is_zero c1 = true -> is_zero c2 = true ->
  normalize [c0; c1; c2] = Raise ZeroDivisionError.
Proof.
  destruct c0 as [[]| | |]; try discriminate;
    destruct c1 as [[]| | |]; try discriminate;
    destruct c2 as [[]| | |]; try discriminate; reflexivity.
Qed.

Lemma all_finite_3 (x y z : float) :
  all_finite [x; y; z] = true ->
  is_finite x = true /\ is_finite y = true /\ is_finite z = true.
Proof.
  unfold all_finite. cbn [forallb]. rewrite !andb_true_iff. tauto.
Qed.

Create HintDb zeros.
#[local] Hint Resolve float_mul_zero_l float_mul_zero_r float_sub_zeros : zeros.

(** X6: a triangle with two equal vertices in a row.  When v0 = v1, or
    v1 = v2, the coordinates of the double vertex are finite and the other
    edge is finite, the cross product is a vector of zeros and the normal
    raises [ZeroDivisionError]; the loop body then writes nothing. *)
Theorem X6_repeated_vertex (a c : vec3) (st : wfile) :
  all_finite (zip_with float_sub (items a) (items c)) = true ->
  (all_finite (items a) = true ->
   normal_of (a, a, c) = Raise ZeroDivisionError
   /\ write_triangle (a, a, c) st = (st, Raise ZeroDivisionError))
  /\ (all_finite (items c) = true ->
      normal_of (a, c, c) = Raise ZeroDivisionError
      /\ write_triangle (a, c, c) st = (st, Raise ZeroDivisionError)).
Proof.
  destruct a as [[a0 a1] a2], c as [[c0 c1] c2]. intros He.
  apply all_finite_3 in He. destruct He as (He0 & He1 & He2).
  split; intros Hv; apply all_finite_3 in Hv; destruct Hv as (Hv0 & Hv1 & Hv2).
  - assert (Hn : normal_of (a0, a1, a2, (a0, a1, a2), (c0, c1, c2))
                 = Raise ZeroDivisionError).
    { unfold normal_of. cbn [tri0 tri1 tri2 items].
      rewrite !vec_sub_3. cbn [bind]. rewrite vec_cross_3. cbn [bind].
      rewrite !float_sub_diag by assumption.
      apply normalize_zeros; auto with zeros. }
    split; [exact Hn | now apply write_triangle_Raise].
  - assert (Hn : normal_of (a0, a1, a2, (c0, c1, c2), (c0, c1, c2))
                 = Raise ZeroDivisionError).
    { unfold normal_of. cbn [tri0 tri1 tri2 items].
      rewrite !vec_sub_3. cbn [bind]. rewrite vec_cross_3. cbn [bind].
      rewrite !float_sub_diag by assumption.
      apply normalize_zeros; auto with zeros. }
    split; [exact Hn | now apply write_triangle_Raise].
Qed.

Lemma X6_repeated_vertex_witness :
  write_triangle ((f1, m1, f1), (f1, m1, f1), (m1, m1, f1)) header
  = (header, Raise ZeroDivisionError)
  /\ normal_of ((f1, m1, f1), (m1, m1, f1), (m1, m1, f1))
     = Raise ZeroDivisionError.
Proof.
  destruct (X6_repeated_vertex (f1, m1, f1) (m1, m1, f1) header eq_refl)
    as (H01 & H12).
  split; [apply H01 | apply H12]; reflexivity.
Defined.

(** ** A record is not written at once *)

Lemma pack_f_Raise_inv (x : float) (e : exn) :
  pack_f x = Raise e ->
  e = OverflowError /\ is_finite x = true /\ is_infinite (to_single x) = true.
Proof.
  unfold pack_f.
  destruct (is_finite x) eqn:Ef, (is_infinite (to_single x)) eqn:Ei;
    cbn [andb]; intros H; inversion H; auto.
Qed.

Lemma pack_vec3_Raise_inv (v : vec3) (e : exn) :
  pack_vec3 v = Raise e ->
  e = OverflowError
  /\ exists x, In x (items v) /\ is_finite x = true
                /\ is_infinite (to_single x) = true.
Proof.
  destruct v as [[x y] z]. unfold pack_vec3, pack_fff. cbn [items In].
  destruct (pack_f x) as [dx|ex] eqn:Ex; cbn [bind].
  - destruct (pack_f y) as [dy|ey] eqn:Ey; cbn [bind].
    + destruct (pack_f z) as [dz|ez] eqn:Ez; cbn [bind]; [discriminate|].
      intros H. inversion H; subst. apply pack_f_Raise_inv in Ez.
      destruct Ez as (-> & Hz). split; [reflexivity|]. exists z. tauto.
    + intros H. inversion H; subst. apply pack_f_Raise_inv in Ey.
      destruct Ey as (-> & Hy). split; [reflexivity|]. exists y. tauto.
  - intros H. inversion H; subst. apply pack_f_Raise_inv in Ex.
    destruct Ex as (-> & Hx). split; [reflexivity|]. exists x. tauto.
Qed.

(** X7: the four fields of a record are packed and written one after the
    other.  When the normal packs and a vertex does not, the fields before
    that vertex stay in the stream and the run ends with the error of the
    pack, which is an [OverflowError] for a finite coordinate beyond the
    binary32 range. *)
Theorem X7_record_written_in_parts (tri : triangle) (st : wfile)
    (n : vec) (dn : list byte) :
  normal_of tri = Ok n -> pack_vec n = Ok dn ->
  (forall e, pack_vec3 (tri0 tri) = Raise e ->
             write_triangle tri st = (st ++ dn, Raise e))
  /\ (forall d0 e, pack_vec3 (tri0 tri) = Ok d0 ->
                   pack_vec3 (tri1 tri) = Raise e ->
                   write_triangle tri st = ((st ++ dn) ++ d0, Raise e))
  /\ (forall d0 d1 e, pack_vec3 (tri0 tri) = Ok d0 ->
                      pack_vec3 (tri1 tri) = Ok d1 ->
                      pack_vec3 (tri2 tri) = Raise e ->
                      write_triangle tri st = (((st ++ dn) ++ d0) ++ d1, Raise e))
  /\ (forall v e, pack_vec3 v = Raise e ->
                  e = OverflowError
                  /\ exists x, In x (items v) /\ is_finite x = true
                                /\ is_infinite (to_single x) = true).
Proof.
  intros Hn Hdn. unfold normal_of in Hn.
  apply bind_Ok_inv in Hn. destruct Hn as (edge1 & He1 & Hn).
  apply bind_Ok_inv in Hn. destruct Hn as (edge2 & He2 & Hn).
  apply bind_Ok_inv in Hn. destruct Hn as (c & Hc & Hn).
  assert (Hstart :
             write_triangle tri st
             = (d <- lift (pack_vec3 (tri0 tri)) ;; fp_write d ;;
                d <- lift (pack_vec3 (tri1 tri)) ;; fp_write d ;;
                d <- lift (pack_vec3 (tri2 tri)) ;; fp_write d ;;
                d <- lift (pack_H 0) ;; fp_write d) (st ++ dn)).
  { unfold write_triangle.
    unfold bindIO at 1, lift at 1. rewrite He1.
    unfold bindIO at 1, lift at 1. rewrite He2.
    unfold bindIO at 1, lift at 1. rewrite Hc.
    unfold bindIO at 1, lift at 1. rewrite Hn.
    unfold bindIO at 1, lift at 1. rewrite Hdn.
    unfold bindIO at 1, fp_write at 1. reflexivity. }
  split; [|split; [|split]].
  - intros e H0. rewrite Hstart. unfold bindIO, lift. now rewrite H0.
  - intros d0 e H0 H1. rewrite Hstart. unfold bindIO, lift, fp_write.
    now rewrite H0, H1.
  - intros d0 d1 e H0 H1 H2. rewrite Hstart. unfold bindIO, lift, fp_write.
    now rewrite H0, H1, H2.
  - apply pack_vec3_Raise_inv.
Qed.

Lemma X7_record_written_in_parts_witness :
  exists dn,
    length dn = 12%nat
    /\ write_triangle huge_triangle header = (header ++ dn, Raise OverflowError).
Proof.
  destruct (X7_record_written_in_parts huge_triangle header
              [S754_zero false; S754_zero false; m1]
              (field_vec3 (S754_zero false, S754_zero false, m1)))
    as (H0 & _).
  - vm_compute. reflexivity.
  - vm_compute. reflexivity.
  - eexists. split; [|apply H0; vm_compute; reflexivity]. reflexivity.
Defined.

(** ** The integer fields *)

(** X8: the integer formats round trip in both directions.  [pack('<I', z)]
    succeeds exactly for 0 <= z < 2^32, gives 4 bytes and unpacks to [z];
    outside the range it is a [struct.error].  [unpack('<I', d)] succeeds
    exactly on 4 bytes, and packing its value gives [d] again.  The same
    holds for ['<H'] with 2 bytes and 2^16. *)
Theorem X8_integer_round_trip :
  (forall z, 0 <= z < 2 ^ 32 ->
             pack_I z = Ok (le_bytes 4 z) /\ unpack_I (le_bytes 4 z) = Ok z)
  /\ (forall z, ~ 0 <= z < 2 ^ 32 -> pack_I z = Raise StructError)
  /\ (forall d, length d = 4%nat ->
                unpack_I d = Ok (le_value d) /\ pack_I (le_value d) = Ok d)
  /\ (forall d, length d <> 4%nat -> unpack_I d = Raise StructError)
  /\ (forall z, 0 <= z < 2 ^ 16 ->
                pack_H z = Ok (le_bytes 2 z) /\ unpack_H (le_bytes 2 z) = Ok z)
  /\ (forall z, ~ 0 <= z < 2 ^ 16 -> pack_H z = Raise StructError)
  /\ (forall d, length d = 2%nat ->
                unpack_H d = Ok (le_value d) /\ pack_H (le_value d) = Ok d)
  /\ (forall d, length d <> 2%nat -> unpack_H d = Raise StructError).
Proof.
  repeat split.
  - unfold pack_I. destruct (Z.leb_spec 0 z), (Z.ltb_spec z (2 ^ 32));
      try lia. reflexivity.
  - now apply unpack_I_le_bytes.
  - intros z Hz. unfold pack_I.
    destruct (Z.leb_spec 0 z), (Z.ltb_spec z (2 ^ 32)); try lia; reflexivity.
  - unfold unpack_I. now rewrite H.
  - pose proof (le_value_range d) as Hr. rewrite H in Hr.
    change (256 ^ Z.of_nat 4) with (2 ^ 32) in Hr. unfold pack_I.
    destruct (Z.leb_spec 0 (le_value d)), (Z.ltb_spec (le_value d) (2 ^ 32));
      try lia.
    cbn [andb]. f_equal. rewrite <- H. apply le_bytes_le_value.
  - intros d Hd. unfold unpack_I. apply Nat.eqb_neq in Hd. now rewrite Hd.
  - unfold pack_H. destruct (Z.leb_spec 0 z), (Z.ltb_spec z (2 ^ 16));
      try lia. reflexivity.
  - unfold unpack_H. rewrite le_bytes_length. cbn [Nat.eqb].
    rewrite le_value_le_bytes. f_equal. apply Z.mod_small.
    change (256 ^ Z.of_nat 2) with (2 ^ 16). lia.
  - intros z Hz. unfold pack_H.
    destruct (Z.leb_spec 0 z), (Z.ltb_spec z (2 ^ 16)); try lia; reflexivity.
  - unfold unpack_H. now rewrite H.
  - pose proof (le_value_range d) as Hr. rewrite H in Hr.
    change (256 ^ Z.of_nat 2) with (2 ^ 16) in Hr. unfold pack_H.
    destruct (Z.leb_spec 0 (le_value d)), (Z.ltb_spec (le_value d) (2 ^ 16));
      try lia.
    cbn [andb]. f_equal. rewrite <- H. apply le_bytes_le_value.
  - intros d Hd. unfold unpack_H. apply Nat.eqb_neq in Hd. now rewrite Hd.
Qed.

Lemma X8_integer_round_trip_witness :
  unpack_I [Byte.x0c; Byte.x00; Byte.x00; Byte.x00] = Ok 12
  /\ pack_I 4294967296 = Raise StructError
  /\ pack_H 20083 = Ok [Byte.x73; Byte.x4e]
  /\ unpack_H [Byte.x73] = Raise StructError.
Proof.
  destruct X8_integer_round_trip
    as (HpI & HrI & HuI & HsI & HpH & HrH & HuH & HsH).
  split; [|split; [|split]].
  - apply (proj1 (HuI [Byte.x0c; Byte.x00; Byte.x00; Byte.x00] eq_refl)).
  - apply HrI. lia.
  - apply (proj1 (HpH 20083 ltac:(lia))).
  - apply HsH. cbn. lia.
Defined.

(** ** The reader on arbitrary streams *)

Lemma stream_split (n : nat) (d : list byte) :
  (n <= length d)%nat ->
  exists d1 r, d = d1 ++ r /\ length d1 = n /\ r = skipn n d.
Proof.
  intros H. exists (firstn n d), (skipn n d).
  rewrite firstn_skipn, length_firstn. repeat split. lia.
Qed.

Lemma fp_read_short (n : nat) (d : list byte) (t : nat) :
  (length d < n)%nat ->
  fp_read n {| unread := d; tell := t |}
  = ({| unread := []; tell := (t + length d)%nat |}, Ok d).
Proof.
  intros H. unfold fp_read. cbn [unread tell].
  rewrite firstn_all2, skipn_all2 by lia. reflexivity.
Qed.

Lemma read_field_short {A B} (n : nat) (unpack : list byte -> result A)
    (k : A -> IO rfile B) (d : list byte) (t : nat) :
  (length d < n)%nat ->
  (forall x, length x <> n -> unpack x = Raise StructError) ->
  snd ((x <- fp_read n ;; a <- lift (unpack x) ;; k a) {| unread := d; tell := t |})
  = Raise StructError.
Proof.
  intros Hd Hu. rewrite (bindIO_eq _ _ _ _ _ (fp_read_short n d t Hd)).
  unfold bindIO, lift. rewrite Hu by lia. reflexivity.
Qed.

Lemma read_field_exact {A B} (n : nat) (unpack : list byte -> result A)
    (k : A -> IO rfile B) (d r : list byte) (t : nat) (a : A) :
  length d = n -> unpack d = Ok a ->
  (x <- fp_read n ;; a <- lift (unpack x) ;; k a) {| unread := d ++ r; tell := t |}
  = k a {| unread := r; tell := (t + n)%nat |}.
Proof.
  intros Hd Hu. rewrite (bindIO_eq _ _ _ _ _ (fp_read_exact n d r t Hd)).
  unfold bindIO at 1, lift. now rewrite Hu.
Qed.

Lemma unpack_fff_short (x : list byte) :
  length x <> 12%nat -> unpack_fff x = Raise StructError.
Proof.
  intros H. unfold unpack_fff. apply Nat.eqb_neq in H. now rewrite H.
Qed.

Lemma unpack_fff_exact (x : list byte) :
  length x = 12%nat -> exists v, unpack_fff x = Ok v.
Proof.
  intros H. unfold unpack_fff. rewrite H. cbn [Nat.eqb]. eauto.
Qed.

Lemma unpack_H_short (x : list byte) :
  length x <> 2%nat -> unpack_H x = Raise StructError.
Proof.
  intros H. unfold unpack_H. apply Nat.eqb_neq in H. now rewrite H.
Qed.

Lemma unpack_I_short (x : list byte) :
  length x <> 4%nat -> unpack_I x = Raise StructError.
Proof.
  intros H. unfold unpack_I. apply Nat.eqb_neq in H. now rewrite H.
Qed.

(** One field of a record: the stream is too short for it and the record
    fails, or the field is cut off the stream. *)
Ltac read_field d n Hlen :=
  let Hge := fresh "Hge" in
  let d1 := fresh "d" in
  let r := fresh "r" in
  let Hd1 := fresh "Hd" in
  let Hr := fresh "Hr" in
  destruct (Nat.lt_ge_cases (length d) n) as [Hge|Hge];
  [ apply read_field_short;
    [exact Hge | first [exact unpack_fff_short | exact unpack_H_short]]
  | destruct (stream_split n d Hge) as (d1 & r & -> & Hd1 & Hr);
    rewrite length_app, Hd1 in Hlen; clear Hge Hr ].

Lemma read_record_short (d : list byte) (t : nat) :
  (length d < 50)%nat ->
  snd (read_record {| unread := d; tell := t |}) = Raise StructError.
Proof.
  intros Hlen. unfold read_record. change (3 * 4)%nat with 12%nat.
  read_field d 12%nat Hlen.
  destruct (unpack_fff_exact _ Hd) as (v0 & Hv0).
  rewrite (read_field_exact 12 unpack_fff _ _ _ _ v0 Hd Hv0).
  read_field r 12%nat Hlen.
  destruct (unpack_fff_exact _ Hd0) as (v1 & Hv1).
  rewrite (read_field_exact 12 unpack_fff _ _ _ _ v1 Hd0 Hv1).
  read_field r0 12%nat Hlen.
  destruct (unpack_fff_exact _ Hd1) as (v2 & Hv2).
  rewrite (read_field_exact 12 unpack_fff _ _ _ _ v2 Hd1 Hv2).
  read_field r 12%nat Hlen.
  destruct (unpack_fff_exact _ Hd2) as (v3 & Hv3).
  rewrite (read_field_exact 12 unpack_fff _ _ _ _ v3 Hd2 Hv3).
  apply read_field_short; [lia | exact unpack_H_short].
Qed.

Lemma read_record_long (d : list byte) (t : nat) :
  (50 <= length d)%nat ->
  exists p,
    read_record {| unread := d; tell := t |}
    = ({| unread := skipn 50 d; tell := (t + 50)%nat |}, Ok p).
Proof.
  intros Hlen. unfold read_record. change (3 * 4)%nat with 12%nat.
  destruct (stream_split 50 d Hlen) as (d50 & rest & -> & Hd50 & _).
  rewrite (skipn_exact 50) by exact Hd50.
  destruct (stream_split 12 d50 ltac:(lia)) as (d0 & r0 & -> & Hd0 & _).
  rewrite length_app, Hd0 in Hd50.
  destruct (stream_split 12 r0 ltac:(lia)) as (d1 & r1 & -> & Hd1 & _).
  rewrite length_app, Hd1 in Hd50.
  destruct (stream_split 12 r1 ltac:(lia)) as (d2 & r2 & -> & Hd2 & _).
  rewrite length_app, Hd2 in Hd50.
  destruct (stream_split 12 r2 ltac:(lia)) as (d3 & r3 & -> & Hd3 & _).
  rewrite length_app, Hd3 in Hd50.
  destruct (unpack_fff_exact _ Hd0) as (v0 & Hv0).
  destruct (unpack_fff_exact _ Hd1) as (v1 & Hv1).
  destruct (unpack_fff_exact _ Hd2) as (v2 & Hv2).
  destruct (unpack_fff_exact _ Hd3) as (v3 & Hv3).
  rewrite <- !app_assoc.
  rewrite (read_field_exact 12 unpack_fff _ _ _ _ v0 Hd0 Hv0).
  rewrite (read_field_exact 12 unpack_fff _ _ _ _ v1 Hd1 Hv1).
  rewrite (read_field_exact 12 unpack_fff _ _ _ _ v2 Hd2 Hv2).
  rewrite (read_field_exact 12 unpack_fff _ _ _ _ v3 Hd3 Hv3).
  assert (Hr3 : length r3 = 2%nat) by lia.
  erewrite (read_field_exact 2 unpack_H _ r3 rest);
    [| exact Hr3 | unfold unpack_H; rewrite Hr3; reflexivity].
  eexists. unfold ret. do 2 f_equal. lia.
Qed.

Lemma read_records_short (n : nat) (d : list byte) (t : nat) :
  (length d < 50 * n)%nat ->
  snd (read_records n {| unread := d; tell := t |}) = Raise StructError.
Proof.
  revert d t. induction n as [|n IH]; intros d t Hlen; [lia|].
  cbn [read_records].
  destruct (Nat.lt_ge_cases (length d) 50) as [Hs|Hl].
  - pose proof (read_record_short d t Hs) as H. unfold bindIO at 1.
    destruct (read_record _) as [st [p|e]]; cbn [snd] in *;
      [discriminate | now inversion H].
  - destruct (read_record_long d t Hl) as (p & Hp).
    rewrite (bindIO_eq _ _ _ _ _ Hp).
    assert (Hrest : (length (skipn 50 d) < 50 * n)%nat)
      by (rewrite length_skipn; lia).
    pose proof (IH (skipn 50 d) (t + 50)%nat Hrest) as H. unfold bindIO at 1.
    destruct (read_records n _) as [st [rs|e]]; cbn [snd] in *;
      [discriminate | now inversion H].
Qed.

Lemma read_records_long (n : nat) (d : list byte) (t : nat) :
  (50 * n <= length d)%nat ->
  exists rs,
    read_records n {| unread := d; tell := t |}
    = ({| unread := skipn (50 * n) d; tell := (t + 50 * n)%nat |}, Ok rs)
    /\ length rs = n.
Proof.
  revert d t. induction n as [|n IH]; intros d t Hlen.
  - exists []. split; [|reflexivity]. cbn. unfold ret. do 2 f_equal. lia.
  - destruct (read_record_long d t ltac:(lia)) as (p & Hp).
    assert (Hrest : (50 * n <= length (skipn 50 d))%nat)
      by (rewrite length_skipn; lia).
    destruct (IH (skipn 50 d) (t + 50)%nat Hrest) as (rs & Hrs & Hn).
    exists (p :: rs). split; [|cbn; now rewrite Hn].
    cbn [read_records]. rewrite (bindIO_eq _ _ _ _ _ Hp).
    rewrite (bindIO_eq _ _ _ _ _ Hrs). unfold ret.
    rewrite skipn_skipn. replace (50 * n + 50)%nat with (50 * S n)%nat by lia.
    do 2 f_equal. lia.
Qed.

(** X9: the reader fails with a [struct.error] on every stream that is
    shorter than the 84 bytes of header and count, and on every stream that
    holds fewer than 50 bytes for each record its count field announces. *)
Theorem X9_reader_short_stream (data : list byte) :
  (length data < 84 + 50 * announced data)%nat ->
  snd (read_stl (open_rb data)) = Raise StructError.
Proof.
  intros Hlen. unfold read_stl, open_rb.
  destruct (Nat.lt_ge_cases (length data) 80) as [H80|H80].
  - rewrite (bindIO_eq _ _ _ _ _ (fp_read_short 80 data 0 H80)).
    unfold bindIO, fp_read, lift. cbn. reflexivity.
  - destruct (stream_split 80 data H80) as (hd & r & Hdata & Hhd & Hr).
    unfold announced in Hlen. rewrite <- Hr in Hlen. rewrite Hdata.
    rewrite Hdata, length_app, Hhd in Hlen. clear Hdata Hr H80.
    rewrite (bindIO_eq _ _ _ _ _ (fp_read_exact 80 hd r 0 Hhd)).
    destruct (Nat.lt_ge_cases (length r) 4) as [H4|H4].
    + apply read_field_short; [exact H4 | exact unpack_I_short].
    + destruct (stream_split 4 r H4) as (dc & r' & -> & Hdc & _).
      rewrite (firstn_exact 4) in Hlen by exact Hdc.
      rewrite length_app, Hdc in Hlen.
      rewrite (read_field_exact 4 unpack_I _ dc r' _ (le_value dc) Hdc)
        by (unfold unpack_I; now rewrite Hdc).
      pose proof (read_records_short (Z.to_nat (le_value dc)) r' (0 + 80 + 4)
                    ltac:(lia)) as H.
      unfold bindIO at 1.
      destruct (read_records _ _) as [st [rs|e]]; cbn [snd] in *;
        [discriminate | now inversion H].
Qed.

Lemma X9_reader_short_stream_witness :
  snd (read_stl (open_rb (header ++ [Byte.x01; Byte.x00; Byte.x00; Byte.x00]
                          ++ repeat Byte.x00 49)))
  = Raise StructError.
Proof.
  apply X9_reader_short_stream. vm_compute. lia.
Defined.

(** X10: on every stream that holds at least 50 bytes for each record its
    count field announces, the reader succeeds, whatever the bytes are: the
    header is the first 80 bytes, unchecked; it parses as many records as
    announced; it stops 84 + 50 * count bytes into the stream and leaves the
    bytes after that unread. *)
Theorem X10_reader_long_stream (data : list byte) :
  (84 + 50 * announced data <= length data)%nat ->
  exists p,
    read_stl (open_rb data)
    = ({| unread := skipn (84 + 50 * announced data) data;
          tell := (84 + 50 * announced data)%nat |}, Ok p)
    /\ p_header p = firstn 80 data
    /\ p_count p = Z.of_nat (announced data)
    /\ length (p_records p) = announced data
    /\ p_tell p = (84 + 50 * announced data)%nat.
Proof.
  intros Hlen. unfold read_stl, open_rb.
  destruct (stream_split 80 data ltac:(lia)) as (hd & r & Hdata & Hhd & Hr).
  assert (Hann : announced data = Z.to_nat (le_value (firstn 4 r)))
    by (unfold announced; now rewrite Hr).
  rewrite Hann in *. rewrite Hdata in *. clear Hann Hr Hdata data.
  rewrite length_app, Hhd in Hlen.
  rewrite (firstn_exact 80) by exact Hhd.
  rewrite (bindIO_eq _ _ _ _ _ (fp_read_exact 80 hd r 0 Hhd)).
  destruct (stream_split 4 r ltac:(lia)) as (dc & r' & -> & Hdc & _).
  rewrite (firstn_exact 4) in * by exact Hdc.
  rewrite length_app, Hdc in Hlen.
  rewrite (read_field_exact 4 unpack_I _ dc r' _ (le_value dc) Hdc)
    by (unfold unpack_I; now rewrite Hdc).
  destruct (read_records_long (Z.to_nat (le_value dc)) r' (0 + 80 + 4)
              ltac:(lia)) as (rs & Hrs & Hn).
  rewrite (bindIO_eq _ _ _ _ _ Hrs).
  eexists. split.
  - unfold bindIO, fp_tell, ret. cbn [tell].
    apply f_equal2; [|reflexivity]. apply f_equal2; [|lia].
    replace (84 + 50 * Z.to_nat (le_value dc))%nat
      with (50 * Z.to_nat (le_value dc) + 4 + 80)%nat by lia.
    rewrite <- skipn_skipn, (skipn_exact 80) by exact Hhd.
    rewrite <- skipn_skipn, (skipn_exact 4) by exact Hdc.
    reflexivity.
  - cbn [p_header p_count p_records p_tell]. split; [reflexivity|]. split.
    + rewrite Z2Nat.id; [reflexivity | apply le_value_range].
    + split; [exact Hn | lia].
Qed.

Lemma X10_reader_long_stream_witness :
  exists p,
    snd (read_stl (open_rb (repeat Byte.xff 80
                            ++ [Byte.x01; Byte.x00; Byte.x00; Byte.x00]
                            ++ repeat Byte.x2a 57)))
    = Ok p
    /\ p_header p = repeat Byte.xff 80
    /\ length (p_records p) = 1%nat
    /\ p_tell p = 134%nat.
Proof.
  destruct (X10_reader_long_stream
              (repeat Byte.xff 80 ++ [Byte.x01; Byte.x00; Byte.x00; Byte.x00]
               ++ repeat Byte.x2a 57))
    as (p & Hp & Hh & _ & Hn & Ht).
  - vm_compute. lia.
  - exists p. rewrite Hp. repeat split; assumption.
Defined.

(** ** Floats through the binary32 word *)

Lemma digits2_pos_bounds (m : positive) :
  2 ^ (Zpos (digits2_pos m) - 1) <= Zpos m < 2 ^ Zpos (digits2_pos m).
Proof.
  induction m as [m IH|m IH|]; cbn [digits2_pos].
  - rewrite Pos2Z.inj_succ.
    replace (Z.succ (Zpos (digits2_pos m)) - 1) with (Z.succ (Zpos (digits2_pos m) - 1)) by lia.
    rewrite !Z.pow_succ_r by lia. lia.
  - rewrite Pos2Z.inj_succ.
    replace (Z.succ (Zpos (digits2_pos m)) - 1) with (Z.succ (Zpos (digits2_pos m) - 1)) by lia.
    rewrite !Z.pow_succ_r by lia. lia.
  - cbn. lia.
Qed.

(** The three fields of a binary32 word. *)
Lemma word_fields (S E F : Z) :
  0 <= S <= 1 -> 0 <= E < 256 -> 0 <= F < 2 ^ 23 ->
  (S * 2 ^ 31 + E * 2 ^ 23 + F) / 2 ^ 31 = S
  /\ ((S * 2 ^ 31 + E * 2 ^ 23 + F) / 2 ^ 23) mod 256 = E
  /\ (S * 2 ^ 31 + E * 2 ^ 23 + F) mod 2 ^ 23 = F
  /\ 0 <= S * 2 ^ 31 + E * 2 ^ 23 + F < 2 ^ 32.
Proof.
  change (2 ^ 31) with 2147483648. change (2 ^ 23) with 8388608.
  change (2 ^ 32) with 4294967296. intros HS HE HF.
  assert (H31 : (S * 2147483648 + E * 8388608 + F) / 2147483648 = S).
  { symmetry. apply Z.div_unique with (E * 8388608 + F); lia. }
  assert (H23 : (S * 2147483648 + E * 8388608 + F) / 8388608 = S * 256 + E).
  { symmetry. apply Z.div_unique with F; lia. }
  split; [exact H31|]. split; [|split; [|lia]].
  - rewrite H23. symmetry. apply Z.mod_unique with S; lia.
  - symmetry. apply Z.mod_unique with (S * 256 + E); lia.
Qed.

Lemma sign_bit_mul (s : bool) : sign_bit s = (if s then 1 else 0) * 2 ^ 31.
Proof. now destruct s. Qed.

Lemma single_of_word (s : bool) (E F : Z) :
  0 <= E < 256 -> 0 <= F < 2 ^ 23 ->
  single_of_bits (sign_bit s + E * 2 ^ 23 + F)
  = (if E =? 255 then (if F =? 0 then S754_infinity s else S754_nan)
     else if E =? 0 then binary_normalize prec emax (cond_Zopp s F) (-149) s
     else binary_normalize prec emax (cond_Zopp s (F + 2 ^ 23)) (E - 150) s)
  /\ 0 <= sign_bit s + E * 2 ^ 23 + F < 2 ^ 32.
Proof.
  intros HE HF. rewrite sign_bit_mul.
  destruct (word_fields (if s then 1 else 0) E F) as (H31 & H23 & H0 & Hr);
    [destruct s; lia | exact HE | exact HF |].
  split; [|exact Hr]. unfold single_of_bits. rewrite H31, H23, H0.
  now destruct s.
Qed.

Lemma single_word_round_trip (y : float) :
  valid_binary 24 128 y = true ->
  single_of_bits (bits_of_single y) = widen y
  /\ 0 <= bits_of_single y < 2 ^ 32.
Proof.
  destruct y as [s|s| |s m e]; intros Hv; cbn [bits_of_single widen].
  - replace (sign_bit s) with (sign_bit s + 0 * 2 ^ 23 + 0) by lia.
    destruct (single_of_word s 0 0) as (-> & Hr); [lia | lia |].
    split; [now destruct s | exact Hr].
  - replace (sign_bit s + 255 * 2 ^ 23)
      with (sign_bit s + 255 * 2 ^ 23 + 0) by lia.
    destruct (single_of_word s 255 0) as (-> & Hr); [lia | lia |].
    split; [reflexivity | exact Hr].
  - split; [reflexivity | lia].
  - cbn [valid_binary] in Hv. unfold bounded, canonical_mantissa, fexp, emin in Hv.
    apply andb_true_iff in Hv. destruct Hv as [Hc He].
    apply Z.eqb_eq in Hc. apply Z.leb_le in He.
    pose proof (digits2_pos_bounds m) as Hm.
    destruct (Z.eqb_spec (Zpos (digits2_pos m)) 24) as [Hd|Hd].
    + rewrite Hd in Hm. change (2 ^ (24 - 1)) with (2 ^ 23) in Hm.
      change (2 ^ 24) with (2 * 2 ^ 23) in Hm.
      destruct (single_of_word s (e + 150) (Zpos m - 2 ^ 23)) as (-> & Hr);
        [lia | lia |].
      split; [|exact Hr].
      destruct (Z.eqb_spec (e + 150) 255); [lia|].
      destruct (Z.eqb_spec (e + 150) 0); [lia|].
      f_equal; [f_equal|]; lia.
    + assert (Hlt : Zpos (digits2_pos m) < 24) by lia.
      assert (He149 : e = -149) by lia. subst e.
      assert (Hm23 : Zpos m < 2 ^ 23).
      { apply Z.lt_le_trans with (2 ^ Zpos (digits2_pos m)); [lia|].
        apply Z.pow_le_mono_r; lia. }
      replace (sign_bit s + Zpos m)
        with (sign_bit s + 0 * 2 ^ 23 + Zpos m) by lia.
      destruct (single_of_word s 0 (Zpos m)) as (-> & Hr); [lia | lia |].
      split; [reflexivity | exact Hr].
Qed.

Lemma unpack_f_word (y : float) :
  valid_binary 24 128 y = true ->
  unpack_f (le_bytes 4 (bits_of_single y)) = widen y.
Proof.
  intros Hv. destruct (single_word_round_trip y Hv) as (Hy & Hr).
  unfold unpack_f. rewrite le_value_le_bytes.
  change (256 ^ Z.of_nat 4) with (2 ^ 32). now rewrite Z.mod_small.
Qed.

(** X11: a float that is a binary32 number survives the file: unpacking the
    4 little-endian bytes of its word gives the number back, widened to a
    double, with its sign also for zeros and infinities; the word fits 32
    bits.  So what [pack] writes for a double whose rounding is a binary32
    number unpacks to that rounding. *)
Theorem X11_single_round_trip :
  (forall y : float,
      valid_binary 24 128 y = true ->
      unpack_f (le_bytes 4 (bits_of_single y)) = widen y
      /\ 0 <= bits_of_single y < 2 ^ 32)
  /\ (forall (x : float) (d : list byte),
        pack_f x = Ok d -> valid_binary 24 128 (to_single x) = true ->
        length d = 4%nat /\ unpack_f d = widen (to_single x)).
Proof.
  split.
  - intros y Hv. split; [now apply unpack_f_word|].
    now apply single_word_round_trip.
  - intros x d Hd Hv. apply pack_f_inv in Hd. subst d.
    split; [apply field_f_length|]. unfold field_f. now apply unpack_f_word.
Qed.

Lemma X11_single_round_trip_witness :
  unpack_f (le_bytes 4 (bits_of_single (to_single (float_of_int (-5)))))
  = float_of_int (-5)
  /\ unpack_f [Byte.x00; Byte.x00; Byte.x90; Byte.x3f] = float_of_dyadic 9 (-3).
Proof.
  destruct X11_single_round_trip as (Hword & Hpack).
  split.
  - rewrite (proj1 (Hword (to_single (float_of_int (-5))) eq_refl)).
    vm_compute. reflexivity.
  - rewrite (proj2 (Hpack (float_of_dyadic 9 (-3))
                      [Byte.x00; Byte.x00; Byte.x90; Byte.x3f]
                      eq_refl eq_refl)).
    vm_compute. reflexivity.
Defined.

(** ** Widening is exact *)

Lemma iter_xO_value (m k : positive) :
  Zpos (Pos.iter xO m k) = Zpos m * 2 ^ Zpos k.
Proof.
  induction k as [|k IH] using Pos.peano_ind.
  - cbn. lia.
  - rewrite Pos.iter_succ, Pos2Z.inj_xO, IH, Pos2Z.inj_succ.
    rewrite Z.pow_succ_r by lia. lia.
Qed.

Lemma iter_xO_digits (m k : positive) :
  Zpos (digits2_pos (Pos.iter xO m k)) = Zpos (digits2_pos m) + Zpos k.
Proof.
  induction k as [|k IH] using Pos.peano_ind.
  - cbn [Pos.iter digits2_pos]. lia.
  - rewrite Pos.iter_succ. cbn [digits2_pos]. rewrite Pos2Z.inj_succ, IH. lia.
Qed.

(** A binary32 mantissa and exponent in the binary64 format: the mantissa is
    shifted to the left and nothing is rounded. *)
Lemma binary_round_single (s : bool) (m : positive) (e : Z) :
  Zpos (digits2_pos m) <= 24 -> -149 <= e <= 104 ->
  exists k : positive,
    binary_round prec emax s m e
    = S754_finite s (Pos.iter xO m k) (e - Zpos k).
Proof.
  intros Hd He. unfold binary_round, shl_align, fexp, emin, prec, emax.
  set (d := Zpos (digits2_pos m)) in *.
  destruct (Z.max (d + e - 53) (3 - 1024 - 53) - e) as [|k|k] eqn:Ek; try lia.
  exists k.
  assert (He' : Z.max (d + e - 53) (3 - 1024 - 53) = e - Zpos k) by lia.
  rewrite He'.
  unfold binary_round_aux, shr_fexp, fexp, emin. cbn [Zdigits2].
  rewrite iter_xO_digits. fold d.
  replace (d + Zpos k + (e - Zpos k)) with (d + e) by lia.
  rewrite He', Z.sub_diag. cbn [shr shr_record_of_loc shr_m loc_of_shr_record
                                  round_nearest_even Zdigits2].
  rewrite iter_xO_digits. fold d.
  replace (d + Zpos k + (e - Zpos k)) with (d + e) by lia.
  rewrite He', Z.sub_diag. cbn [shr shr_m].
  destruct (Z.leb_spec (e - Zpos k) (1024 - 53)); [reflexivity | lia].
Qed.

Lemma Qpower_2_split (e : Z) (k : positive) :
  (2 ^ e == inject_Z (2 ^ Zpos k) * 2 ^ (e - Zpos k))%Q.
Proof.
  replace e with (Zpos k + (e - Zpos k)) at 1 by lia.
  rewrite Qpower_plus by discriminate.
  apply Qmult_comp; [|reflexivity].
  change 2%Q with (inject_Z 2). now rewrite <- Zpower_Qpower by lia.
Qed.

(** X12: widening a finite binary32 number to a double changes neither its
    sign nor its value: the double read back from the 4 bytes of a binary32
    number is that number exactly. *)
Theorem X12_widen_exact (s : bool) (m : positive) (e : Z) :
  valid_binary 24 128 (S754_finite s m e) = true ->
  exists m' e' q,
    unpack_f (le_bytes 4 (bits_of_single (S754_finite s m e)))
    = S754_finite s m' e'
    /\ Q_of_float (S754_finite s m' e') = Some q
    /\ (q == inject_Z (cond_Zopp s (Zpos m)) * 2 ^ e)%Q.
Proof.
  intros Hv.
  pose proof (unpack_f_word (S754_finite s m e) Hv) as Hw.
  rewrite Hw. cbn [widen].
  cbn [valid_binary] in Hv. unfold bounded, canonical_mantissa, fexp, emin in Hv.
  apply andb_true_iff in Hv. destruct Hv as [Hc He].
  apply Z.eqb_eq in Hc. apply Z.leb_le in He.
  destruct (binary_round_single s m e) as (k & Hk); [lia | lia |].
  exists (Pos.iter xO m k), (e - Zpos k). eexists. split; [|split].
  - destruct s; cbn [cond_Zopp Z.opp binary_normalize]; exact Hk.
  - reflexivity.
  - rewrite (Qpower_2_split e k), Qmult_assoc.
    apply Qmult_comp; [|reflexivity]. rewrite <- inject_Z_mult.
    destruct s; cbn [cond_Zopp]; rewrite iter_xO_value, ?Z.mul_opp_l;
      reflexivity.
Qed.

Lemma X12_widen_exact_witness :
  exists m' e' q,
    unpack_f [Byte.x00; Byte.x00; Byte.xa0; Byte.xc0] = S754_finite true m' e'
    /\ Q_of_float (S754_finite true m' e') = Some q
    /\ (q == - (5))%Q.
Proof.
  destruct (X12_widen_exact true 10485760 (-21) eq_refl) as (m' & e' & q & H1 & H2 & H3).
  exists m', e', q. split; [exact H1|]. split; [exact H2|].
  rewrite H3. vm_compute. reflexivity.
Defined.

(** ** The errors of the writer *)

Lemma normalize_Raise_inv (a : vec) (e : exn) :
  normalize a = Raise e -> e = ZeroDivisionError \/ e = OverflowError.
Proof.
  unfold normalize. destruct (vec_len a) as [l|e'] eqn:El; cbn [bind].
  - unfold float_div. destruct (is_zero l); cbn [bind].
    + intros H. inversion H. now left.
    + rewrite vec_scale_map. discriminate.
  - intros H. inversion H; subst. right. now apply vec_len_Raise_inv in El.
Qed.

Lemma write_triangle_Raise_inv (tri : triangle) (st : wfile) (e : exn) :
  snd (write_triangle tri st) = Raise e ->
  e = ZeroDivisionError \/ e = OverflowError.
Proof.
  destruct tri as [[[[a0 a1] a2] [[b0 b1] b2]] [[c0 c1] c2]].
  unfold write_triangle, bindIO, lift, fp_write. cbn [tri0 tri1 tri2 items].
  rewrite !vec_sub_3, vec_cross_3.
  destruct (normalize _) as [n|e'] eqn:En.
  - apply normalize_3_inv in En. destruct En as (l & r & _ & _ & ->).
    cbn [pack_vec getitem nth_error bind].
    destruct (pack_fff _ _ _) as [dn|e'] eqn:Edn.
    + destruct (pack_vec3 (a0, a1, a2)) as [d0|e'] eqn:E0.
      * destruct (pack_vec3 (b0, b1, b2)) as [d1|e'] eqn:E1.
        -- destruct (pack_vec3 (c0, c1, c2)) as [d2|e'] eqn:E2.
           ++ cbn. discriminate.
           ++ cbn [snd]. intros H. inversion H; subst. right.
              now apply pack_vec3_Raise_inv in E2.
        -- cbn [snd]. intros H. inversion H; subst. right.
           now apply pack_vec3_Raise_inv in E1.
      * cbn [snd]. intros H. inversion H; subst. right.
        now apply pack_vec3_Raise_inv in E0.
    + cbn [snd]. intros H. inversion H; subst. right.
      now apply (pack_vec3_Raise_inv (_, _, _)) in Edn.
  - cbn [snd]. intros H. inversion H; subst. now apply normalize_Raise_inv in En.
Qed.

Lemma for_each_write_Raise_inv (tris : list triangle) (st : wfile) (e : exn) :
  snd (for_each write_triangle tris st) = Raise e ->
  e = ZeroDivisionError \/ e = OverflowError.
Proof.
  revert st. induction tris as [|tri tris IH]; intros st; [discriminate|].
  cbn [for_each]. unfold bindIO.
  pose proof (write_triangle_Raise_inv tri st) as Htri.
  destruct (write_triangle tri st) as [st1 [[]|e']]; cbn [snd] in *.
  - apply IH.
  - intros H. inversion H; subst. now apply Htri.
Qed.

(** X13: the ways the writer fails.  A run of [write_stl] that raises ends
    with a [struct.error] from the count field, on a mesh of 2^32 triangles
    or more, or with a [ZeroDivisionError] or an [OverflowError]; it never
    ends with an [AssertionError], an [IndexError] or a [ValueError]: the
    length checks and the indexing of the vector math cannot fail on the
    3-tuples of a mesh, and the sum of squares is never negative. *)
Theorem X13_writer_errors (tris : list triangle) (e : exn) :
  snd (write_stl tris []) = Raise e ->
  (e = StructError /\ 2 ^ 32 <= Z.of_nat (length tris))
  \/ e = ZeroDivisionError \/ e = OverflowError.
Proof.
  unfold write_stl. unfold bindIO at 1. cbn [fp_write].
  unfold bindIO at 1, lift, pack_I.
  destruct (Z.leb_spec 0 (Z.of_nat (length tris))); [|lia].
  destruct (Z.ltb_spec (Z.of_nat (length tris)) (2 ^ 32)); cbn [andb].
  - unfold bindIO at 1. cbn [fp_write]. intros Hr. right.
    now apply for_each_write_Raise_inv in Hr.
  - cbn [snd]. intros Hr. inversion Hr. left. split; [reflexivity | lia].
Qed.

Lemma X13_writer_errors_witness :
  snd (write_stl [point_triangle] []) = Raise ZeroDivisionError
  /\ ((ZeroDivisionError = StructError /\ 2 ^ 32 <= 1)
      \/ ZeroDivisionError = ZeroDivisionError
      \/ ZeroDivisionError = OverflowError).
Proof.
  assert (H : snd (write_stl [point_triangle] []) = Raise ZeroDivisionError)
    by (vm_compute; reflexivity).
  split; [exact H|]. exact (X13_writer_errors [point_triangle] _ H).
Defined.
